(** * crowsnest-connector-cluon: lidar point clouds, latest-value join and rate limiting

    A shallow embedding of [lidar_utils.py] and of the stream pipeline of
    [main.py], and the properties of the specification proved (or refuted)
    on it.

    Numeric conventions of the embedding:
    - numpy [float64] arrays are lists of real numbers ([R]) and every
      arithmetic operation is the exact one (no rounding); where rounding
      decides, at the edges of the band of the range filter, [get_points]
      is taken again with the arithmetic as a parameter, instantiated with
      operations that round and with the binary64 operations of the
      machine;
    - Python [float] quotients that only feed [int(...)] are exact
      rationals ([Q]);
    - wall-clock instants ([time.time()]) are rationals, in seconds;
    - Python exceptions are the [Raise] branch of [result]; the
      [try ... except Exception] of [point_cloud_reading_extractor] is the
      only handler. *)

From Stdlib Require Import Floats.PrimFloat.
From Stdlib Require Import Reals Lia Psatz List ZArith QArith Qminmax Qround Bool.
From Stdlib Require Import Strings.Byte.
Import ListNotations.

(** ** Exceptions *)

Inductive exn : Type :=
| ZeroDivisionError
| ValueError.

Inductive result (A : Type) : Type :=
| Ok (a : A)
| Raise (e : exn).

Arguments Ok {A} a.
Arguments Raise {A} e.

Definition bind {A B : Type} (r : result A) (k : A -> result B) : result B :=
  match r with
  | Ok a => k a
  | Raise e => Raise e
  end.

Notation "x <- r ;; k" := (bind r (fun x => k))
  (at level 61, r at next level, right associativity).
Notation "' p <- r ;; k" := (bind r (fun p => k))
  (at level 61, p pattern, r at next level, right associativity).

(** ** The numpy operations the code relies on *)

Definition point : Type := (R * R * R)%type.

Section Numpy.
Local Open Scope R_scope.

(** Comparison of floats, as a boolean. *)
Definition Rleb (a b : R) : bool := if Rle_dec a b then true else false.

(** [np.frombuffer(buf, dtype=">u2")]: consecutive byte pairs read as
    big-endian unsigned 16 bit integers; a buffer whose size is not a
    multiple of the element size raises [ValueError]. *)
Fixpoint be_u2 (buf : list byte) : list Z :=
  match buf with
  | hi :: lo :: rest =>
      (256 * Z.of_N (Byte.to_N hi) + Z.of_N (Byte.to_N lo))%Z :: be_u2 rest
  | _ => []
  end.

Definition np_frombuffer_u2 (buf : list byte) : result (list Z) :=
  if Nat.even (length buf) then Ok (be_u2 buf) else Raise ValueError.

(** Element-wise product of two 1-d arrays with numpy's broadcasting: equal
    shapes, or one operand of length one; any other pair of shapes raises
    [ValueError]. *)
Fixpoint zip_mult (xs ys : list R) : list R :=
  match xs, ys with
  | x :: xs', y :: ys' => x * y :: zip_mult xs' ys'
  | _, _ => []
  end.

Definition np_multiply (xs ys : list R) : result (list R) :=
  if Nat.eqb (length xs) (length ys) then Ok (zip_mult xs ys)
  else match xs, ys with
       | [x], _ => Ok (map (fun y => x * y) ys)
       | _, [y] => Ok (map (fun x => x * y) xs)
       | _, _ => Raise ValueError
       end.

(** The index that broadcasting reads in an operand of length [n] for
    position [k] of the result: an operand of length one is repeated. *)
Definition bidx (n k : nat) : nat := if Nat.eqb n 1 then 0%nat else k.

Definition np_cos (xs : list R) : list R := map cos xs.
Definition np_sin (xs : list R) : list R := map sin xs.
Definition np_negative (xs : list R) : list R := map Ropp xs.

(** [np.meshgrid(xs, ys)] (default "xy" indexing): two arrays of shape
    [(len ys, len xs)]; row [i] of the first is [xs], row [i] of the second
    repeats [ys[i]]. *)
Definition np_meshgrid (xs ys : list R) : list (list R) * list (list R) :=
  (map (fun _ => xs) ys, map (fun y => map (fun _ => y) xs) ys).

(** [a.flatten()], row-major. *)
Definition flatten (a : list (list R)) : list R := concat a.

(** [np.deg2rad]. *)
Definition np_deg2rad (xs : list R) : list R := map (fun x => x * (PI / 180)) xs.

(** [np.linspace(start, stop, num, endpoint=True)]: a negative [num]
    raises; [arange(0, num)] is scaled by the step ([delta / div], where
    numpy's separate path for a step that rounds to zero computes the same
    real number), shifted by [start], and its last entry is set to [stop]. *)
Definition set_last (xs : list R) (v : R) : list R := removelast xs ++ [v].

Definition np_linspace (start stop : R) (num : Z) : result (list R) :=
  if (num <? 0)%Z then Raise ValueError
  else
    let div := (num - 1)%Z in
    let delta := stop - start in
    let y := map INR (seq 0 (Z.to_nat num)) in
    let y := if (0 <? div)%Z then map (fun v => v * (delta / IZR div)) y
             else map (fun v => v * delta) y in
    let y := map (fun v => v + start) y in
    Ok (if (1 <? num)%Z then set_last y stop else y).

(** [np.column_stack([xs, ys, zs])] of three 1-d arrays. *)
Fixpoint zip3 (xs ys zs : list R) : list point :=
  match xs, ys, zs with
  | x :: xs', y :: ys', z :: zs' => (x, y, z) :: zip3 xs' ys' zs'
  | _, _, _ => []
  end.

Definition np_column_stack (xs ys zs : list R) : result (list point) :=
  if Nat.eqb (length xs) (length ys) && Nat.eqb (length ys) (length zs)
  then Ok (zip3 xs ys zs) else Raise ValueError.

(** [np.linalg.norm(points, axis=1)], one row, in exact arithmetic
    ([norm_fl] below has the operations of float64 as a parameter). *)
Definition norm (p : point) : R :=
  let '(x, y, z) := p in sqrt (x * x + y * y + z * z).

(** [points[condition]]: selection by a boolean mask. *)
Fixpoint np_mask (points : list point) (condition : list bool) : list point :=
  match points, condition with
  | p :: ps, c :: cs => if c then p :: np_mask ps cs else np_mask ps cs
  | _, _ => []
  end.

End Numpy.

(** ** lidar_utils.py *)

Section LidarUtils.
Local Open Scope R_scope.

Definition VERTICAL_ANGLES_16 : list R :=
  [-15; -13; -11; -9; -7; -5; -3; -1; 1; 3; 5; 7; 9; 11; 13; 15].

Definition sph2cart (azimuths elevations distances : list R)
  : result (list R * list R * list R) :=
  let '(els, azs) := np_meshgrid elevations azimuths in
  dx <- np_multiply distances (np_cos (flatten els)) ;;
  x_coords <- np_multiply dx (np_cos (flatten azs)) ;;
  dy <- np_multiply distances (np_cos (flatten els)) ;;
  y_coords <- np_multiply dy (np_sin (flatten azs)) ;;
  z_coords <- np_multiply distances (np_sin (flatten els)) ;;
  Ok (x_coords, y_coords, z_coords).

(** [len(distances) / 2]: true division, the result is a float. *)
Definition get_number_of_points (distances : list byte) : Q :=
  (inject_Z (Z.of_nat (length distances)) / 2)%Q.

(** [number_of_points / entries_per_azimuth]: true division; dividing by
    zero raises. *)
Definition get_number_of_azimuths (number_of_points : Q) (entries_per_azimuth : Z)
  : result Q :=
  if (entries_per_azimuth =? 0)%Z then Raise ZeroDivisionError
  else Ok (number_of_points / inject_Z entries_per_azimuth)%Q.

(** The test of the comment [# Filter for usuable points]. *)
Definition usable (n : R) : bool := Rleb 0.5 n && Rleb n 200.

Definition get_points (azimuths elevations : list R) (binary_distances : list byte)
  : result (list point) :=
  raw <- np_frombuffer_u2 binary_distances ;;
  let distances := map IZR raw in
  let distances := map (fun d => d / 100) distances in
  ' (x_coords, y_coords, z_coords) <- sph2cart azimuths elevations distances ;;
  points <- np_column_stack x_coords (np_negative y_coords) z_coords ;;
  let norms := map norm points in
  let condition := map usable norms in
  Ok (np_mask points condition).

(** The stages of [get_points], named: the distances decoded from the
    buffer, the points stacked from [sph2cart] with the y column negated,
    and the two together, which are the candidate points in front of the
    range filter. *)
Definition decode_distances (binary_distances : list byte) : result (list R) :=
  raw <- np_frombuffer_u2 binary_distances ;;
  Ok (map (fun u => IZR u / 100) raw).

Definition cartesian_points (azimuths elevations distances : list R)
  : result (list point) :=
  ' (x_coords, y_coords, z_coords) <- sph2cart azimuths elevations distances ;;
  np_column_stack x_coords (np_negative y_coords) z_coords.

Definition candidate_points (azimuths elevations : list R) (binary_distances : list byte)
  : result (list point) :=
  distances <- decode_distances binary_distances ;;
  cartesian_points azimuths elevations distances.

End LidarUtils.

(** ** lidar_utils.py, with the arithmetic of float64 as a parameter

    [get_points] once more, over a carrier [F] of floats and the operations
    that the code applies to them.  Three instances follow: the exact
    operations on [R], which give back the definitions above; operations
    on [R] that round their result; and the binary64 operations of the
    machine. *)

Record arith (F : Type) : Type := {
  f_of_Z : Z -> F;          (* [astype(float)] of an integer, integer literals *)
  f_half : F;               (* the literal [0.5] *)
  f_div : F -> F -> F;
  f_mul : F -> F -> F;
  f_add : F -> F -> F;
  f_neg : F -> F;
  f_sqrt : F -> F;
  f_cos : F -> F;           (* [np.cos] *)
  f_sin : F -> F;           (* [np.sin] *)
  f_leb : F -> F -> bool    (* [<=] *)
}.

Arguments f_of_Z {F} _ _.
Arguments f_half {F} _.
Arguments f_div {F} _ _ _.
Arguments f_mul {F} _ _ _.
Arguments f_add {F} _ _ _.
Arguments f_neg {F} _ _.
Arguments f_sqrt {F} _ _.
Arguments f_cos {F} _ _.
Arguments f_sin {F} _ _.
Arguments f_leb {F} _ _ _.

Section LidarUtilsFloat.
Context {F : Type} (fl : arith F).

Fixpoint zip_mult_fl (xs ys : list F) : list F :=
  match xs, ys with
  | x :: xs', y :: ys' => f_mul fl x y :: zip_mult_fl xs' ys'
  | _, _ => []
  end.

Definition np_multiply_fl (xs ys : list F) : result (list F) :=
  if Nat.eqb (length xs) (length ys) then Ok (zip_mult_fl xs ys)
  else match xs, ys with
       | [x], _ => Ok (map (fun y => f_mul fl x y) ys)
       | _, [y] => Ok (map (fun x => f_mul fl x y) xs)
       | _, _ => Raise ValueError
       end.

Definition np_meshgrid_fl (xs ys : list F) : list (list F) * list (list F) :=
  (map (fun _ => xs) ys, map (fun y => map (fun _ => y) xs) ys).

Definition flatten_fl (a : list (list F)) : list F := concat a.

Fixpoint zip3_fl (xs ys zs : list F) : list (F * F * F) :=
  match xs, ys, zs with
  | x :: xs', y :: ys', z :: zs' => (x, y, z) :: zip3_fl xs' ys' zs'
  | _, _, _ => []
  end.

Definition np_column_stack_fl (xs ys zs : list F) : result (list (F * F * F)) :=
  if Nat.eqb (length xs) (length ys) && Nat.eqb (length ys) (length zs)
  then Ok (zip3_fl xs ys zs) else Raise ValueError.

(** [np.linalg.norm(points, axis=1)], one row: the squares are added from
    left to right, then the root is taken. *)
Definition norm_fl (p : F * F * F) : F :=
  let '(x, y, z) := p in
  f_sqrt fl (f_add fl (f_add fl (f_mul fl x x) (f_mul fl y y)) (f_mul fl z z)).

Fixpoint np_mask_fl (points : list (F * F * F)) (condition : list bool)
  : list (F * F * F) :=
  match points, condition with
  | p :: ps, c :: cs => if c then p :: np_mask_fl ps cs else np_mask_fl ps cs
  | _, _ => []
  end.

Definition sph2cart_fl (azimuths elevations distances : list F)
  : result (list F * list F * list F) :=
  let '(els, azs) := np_meshgrid_fl elevations azimuths in
  dx <- np_multiply_fl distances (map (f_cos fl) (flatten_fl els)) ;;
  x_coords <- np_multiply_fl dx (map (f_cos fl) (flatten_fl azs)) ;;
  dy <- np_multiply_fl distances (map (f_cos fl) (flatten_fl els)) ;;
  y_coords <- np_multiply_fl dy (map (f_sin fl) (flatten_fl azs)) ;;
  z_coords <- np_multiply_fl distances (map (f_sin fl) (flatten_fl els)) ;;
  Ok (x_coords, y_coords, z_coords).

Definition usable_fl (n : F) : bool :=
  f_leb fl (f_half fl) n && f_leb fl n (f_of_Z fl 200).

Definition get_points_fl (azimuths elevations : list F) (binary_distances : list byte)
  : result (list (F * F * F)) :=
  raw <- np_frombuffer_u2 binary_distances ;;
  let distances := map (f_of_Z fl) raw in
  let distances := map (fun d => f_div fl d (f_of_Z fl 100)) distances in
  ' (x_coords, y_coords, z_coords) <- sph2cart_fl azimuths elevations distances ;;
  points <- np_column_stack_fl x_coords (map (f_neg fl) y_coords) z_coords ;;
  let norms := map norm_fl points in
  let condition := map usable_fl norms in
  Ok (np_mask_fl points condition).

(** The candidate points in front of the range filter. *)
Definition candidate_points_fl (azimuths elevations : list F)
    (binary_distances : list byte) : result (list (F * F * F)) :=
  raw <- np_frombuffer_u2 binary_distances ;;
  let distances := map (fun u => f_div fl (f_of_Z fl u) (f_of_Z fl 100)) raw in
  ' (x_coords, y_coords, z_coords) <- sph2cart_fl azimuths elevations distances ;;
  np_column_stack_fl x_coords (map (f_neg fl) y_coords) z_coords.

End LidarUtilsFloat.

(** The exact operations on real numbers. *)
Definition exact : arith R :=
  {| f_of_Z := IZR; f_half := 0.5%R; f_div := Rdiv; f_mul := Rmult; f_add := Rplus;
     f_neg := Ropp; f_sqrt := sqrt; f_cos := cos; f_sin := sin; f_leb := Rleb |}.

(** Operations that round: a float is the real number it stands for, and
    an operation of float64 returns the rounding [rnd] of the exact
    result.  The integers of 16 bits, [0.5], the change of sign and the
    comparison are exact; [np.cos] and [np.sin] are functions [fcos] and
    [fsin] of their own. *)
Definition rounded (rnd fcos fsin : R -> R) : arith R :=
  {| f_of_Z := IZR; f_half := 0.5%R;
     f_div := fun a b => rnd (a / b)%R;
     f_mul := fun a b => rnd (a * b)%R;
     f_add := fun a b => rnd (a + b)%R;
     f_neg := Ropp;
     f_sqrt := fun a => rnd (sqrt a);
     f_cos := fcos; f_sin := fsin; f_leb := Rleb |}.

(** [a] is within [eps] of [b]. *)
Definition within (eps a b : R) : Prop := (Rabs (a - b) <= eps)%R.

(** The binary64 operations of the machine.  An integer is converted
    digit by digit, which is exact below [2^53].  [np.cos] and [np.sin]
    are given on the arguments that the examples use, the azimuth 0 and
    [np.deg2rad] of the sixteen beam angles: there each returns the
    binary64 number nearest to the cosine or sine. *)
Fixpoint float_of_pos (p : positive) : float :=
  match p with
  | xH => 1%float
  | xO q => (2 * float_of_pos q)%float
  | xI q => (2 * float_of_pos q + 1)%float
  end.

Definition float_of_Z (z : Z) : float :=
  match z with
  | Z0 => 0%float
  | Zpos p => float_of_pos p
  | Zneg p => (- float_of_pos p)%float
  end.

Definition cos_sin_table : list (float * (float * float)) :=
  [ (0, (1, 0));
    (-0x1.0c152382d7365p-2, (0x1.ee8dd4748bf15p-1, -0x1.0907dc1930690p-2));
    (-0x1.d0ad2c7c63f7dp-3, (0x1.f2e0a214e870fp-1, -0x1.ccb3236cdc675p-3));
    (-0x1.893011f31982ep-3, (0x1.f697d6938b6c2p-1, -0x1.86c6ddd76624fp-3));
    (-0x1.41b2f769cf0e0p-3, (0x1.f9b24942fe45cp-1, -0x1.4060b67a85375p-3));
    (-0x1.f46bb9c109324p-4, (0x1.fc2f025a23e8bp-1, -0x1.f32d44c4f62d3p-4));
    (-0x1.657184ae74487p-4, (0x1.fe0d3b41815a2p-1, -0x1.64fd6b8c28102p-4));
    (-0x1.acee9f37bebd6p-5, (0x1.ff4c5ed12e61dp-1, -0x1.acbc748efc90ep-5));
    (-0x1.1df46a2529d39p-6, (0x1.ffec097f5af8ap-1, -0x1.1df0b2b89dd1ep-6));
    (0x1.1df46a2529d39p-6, (0x1.ffec097f5af8ap-1, 0x1.1df0b2b89dd1ep-6));
    (0x1.acee9f37bebd6p-5, (0x1.ff4c5ed12e61dp-1, 0x1.acbc748efc90ep-5));
    (0x1.657184ae74487p-4, (0x1.fe0d3b41815a2p-1, 0x1.64fd6b8c28102p-4));
    (0x1.f46bb9c109324p-4, (0x1.fc2f025a23e8bp-1, 0x1.f32d44c4f62d3p-4));
    (0x1.41b2f769cf0e0p-3, (0x1.f9b24942fe45cp-1, 0x1.4060b67a85375p-3));
    (0x1.893011f31982ep-3, (0x1.f697d6938b6c2p-1, 0x1.86c6ddd76624fp-3));
    (0x1.d0ad2c7c63f7dp-3, (0x1.f2e0a214e870fp-1, 0x1.ccb3236cdc675p-3));
    (0x1.0c152382d7365p-2, (0x1.ee8dd4748bf15p-1, 0x1.0907dc1930690p-2)) ]%float.

Definition cos_sin_binary64 (x : float) : float * float :=
  match find (fun row => PrimFloat.eqb (fst row) x) cos_sin_table with
  | Some row => snd row
  | None => (nan, nan)
  end.

Definition binary64 : arith float :=
  {| f_of_Z := float_of_Z; f_half := 0.5%float;
     f_div := PrimFloat.div; f_mul := PrimFloat.mul; f_add := PrimFloat.add;
     f_neg := PrimFloat.opp; f_sqrt := PrimFloat.sqrt;
     f_cos := fun x => fst (cos_sin_binary64 x);
     f_sin := fun x => snd (cos_sin_binary64 x);
     f_leb := PrimFloat.leb |}.

(** [np.deg2rad] in binary64: the product with the binary64 number
    nearest to [pi / 180]. *)
Definition np_deg2rad_binary64 (xs : list float) : list float :=
  map (fun x => (x * 0x1.1df46a2529d39p-6)%float) xs.

Definition VERTICAL_ANGLES_16_binary64 : list float :=
  [-15; -13; -11; -9; -7; -5; -3; -1; 1; 3; 5; 7; 9; 11; 13; 15]%float.

(** ** main.py: the revolution decoder *)

(** The fields of an [opendlv_proxy_PointCloudReading] message, as
    [ParseFromString] delivers them. *)
Record PointCloudReading : Type := {
  startAzimuth : R;
  endAzimuth : R;
  entriesPerAzimuth : Z;
  distances : list byte
}.

(** Python's [int(x)] on a float: truncation towards zero. *)
Definition python_int (x : Q) : Z := Z.quot (Qnum x) (Zpos (Qden x)).

Definition is_empty {A : Type} (l : list A) : bool :=
  match l with [] => true | _ => false end.

(** The [for envelope in envelopes] loop, with its two accumulators. *)
Fixpoint accumulate (envelopes : list PointCloudReading)
    (all_azimuths : list R) (all_binary_distances : list byte)
  : result (list R * list byte) :=
  match envelopes with
  | [] => Ok (all_azimuths, all_binary_distances)
  | msg :: rest =>
      let start_azimuth := startAzimuth msg in
      let end_azimuth := endAzimuth msg in
      let entries_per_azimuth := entriesPerAzimuth msg in
      let binary_distances := distances msg in
      if is_empty binary_distances then
        accumulate rest all_azimuths all_binary_distances
      else
        let n_points := get_number_of_points binary_distances in
        n_azimuths <- get_number_of_azimuths n_points entries_per_azimuth ;;
        azimuths <- np_linspace start_azimuth end_azimuth (python_int n_azimuths) ;;
        accumulate rest (all_azimuths ++ azimuths)
                        (all_binary_distances ++ binary_distances)
  end.

(** The body of the [try] block. *)
Definition extract_points (envelopes : list PointCloudReading) : result (list point) :=
  ' (all_azimuths, all_binary_distances) <- accumulate envelopes [] [] ;;
  get_points (np_deg2rad all_azimuths) (np_deg2rad VERTICAL_ANGLES_16)
             all_binary_distances.

(** [point_cloud_reading_extractor]: [None] when the cloud is empty and
    when anything was raised. *)
Definition point_cloud_reading_extractor (envelopes : list PointCloudReading)
  : option (list point) :=
  match extract_points envelopes with
  | Ok points => if is_empty points then None else Some points
  | Raise _ => None
  end.

(** ** main.py: the stream operators *)

Definition CLUON_ENVELOPES_PER_REVOLUTION : nat := 2.

(** [partition(n)]: buffers the elements and emits the buffer as a tuple
    once it holds [n] of them. *)
Definition partition_update {A : Type} (n : nat) (buffer : list A) (x : A)
  : list A * option (list A) :=
  let buffer' := buffer ++ [x] in
  if Nat.eqb (length buffer') n then ([], Some buffer') else (buffer', None).

(** [pcd_source.partition(n).map(point_cloud_reading_extractor)
    .filter(lambda x: x is not None)]: what one envelope produces. *)
Definition decoder_update (n : nat) (buffer : list PointCloudReading)
    (envelope : PointCloudReading)
  : list PointCloudReading * option (list point) :=
  match partition_update n buffer envelope with
  | (buffer', Some revolution) => (buffer', point_cloud_reading_extractor revolution)
  | (buffer', None) => (buffer', None)
  end.

(** The clouds that leave the filter while a sequence of envelopes
    arrives, oldest first. *)
Fixpoint decoder_run (n : nat) (buffer : list PointCloudReading)
    (envelopes : list PointCloudReading) : list (list point) :=
  match envelopes with
  | [] => []
  | envelope :: rest =>
      match decoder_update n buffer envelope with
      | (buffer', Some points) => points :: decoder_run n buffer' rest
      | (buffer', None) => decoder_run n buffer' rest
      end
  end.

(** *** [latest()] followed by [rate_limit(0.5)]

    [rate_limit(interval)] takes the least number of seconds between two
    emissions.  [latest] keeps the newest element in [self.next]; its
    coroutine [cb] waits on a condition, takes [self.next] when notified
    and then waits for [rate_limit.update] to finish, sleep included.  A
    notification that finds [cb] still inside that call wakes nobody.
    Instants are in seconds; the work done at an instant takes no time. *)

Definition RATE_LIMIT_INTERVAL : Q := 0.5.

Section Limiter.
Context {A : Type}.
Local Open Scope Q_scope.

Definition Qltb (a b : Q) : bool := negb (Qle_bool b a).

(** [rate_limit.update] called at [now]: the new [self.next] and the
    instant of [self._emit(x)]. *)
Definition rate_limit_update (interval next now : Q) : Q * Q :=
  let old_next := next in
  let next' := Qmax now next + interval in
  (next', if Qltb now old_next then now + (old_next - now) else now).

Record limiter : Type := {
  latest_next : list A;   (* [latest.next] *)
  cb_resumes : Q;         (* [latest.cb] is back on [condition.wait()] from then on *)
  rate_next : Q           (* [rate_limit.next] *)
}.

Definition limiter_init : limiter :=
  {| latest_next := []; cb_resumes := 0; rate_next := 0 |}.

(** [latest.update(x)] at [now], and what [cb] does if it is woken. *)
Definition limiter_update (interval : Q) (st : limiter) (now : Q) (x : A)
  : limiter * list (Q * A) :=
  let next := [x] in
  if Qle_bool (cb_resumes st) now then
    let '(rate_next', emitted_at) := rate_limit_update interval (rate_next st) now in
    ({| latest_next := next; cb_resumes := emitted_at; rate_next := rate_next' |},
     map (fun y => (emitted_at, y)) next)
  else
    ({| latest_next := next; cb_resumes := cb_resumes st; rate_next := rate_next st |}, []).

(** The emissions, with their instants, caused by a sequence of timed
    arrivals. *)
Fixpoint limiter_run (interval : Q) (st : limiter) (arrivals : list (Q * A))
  : limiter * list (Q * A) :=
  match arrivals with
  | [] => (st, [])
  | (now, x) :: rest =>
      let '(st', out) := limiter_update interval st now x in
      let '(st'', outs) := limiter_run interval st' rest in
      (st'', out ++ outs)
  end.

Definition in_window (a T e : Q) : bool := Qle_bool a e && Qle_bool e (a + T).

(** Number of emissions in the closed window [[a, a + T]]. *)
Definition emitted_in_window (a T : Q) (emissions : list (Q * A)) : nat :=
  length (filter (fun em => in_window a T (fst em)) emissions).

End Limiter.

(** Instants that start at [from] or later and lie at least [interval]
    apart. *)
Fixpoint spaced_from (interval from : Q) (instants : list Q) : Prop :=
  match instants with
  | [] => True
  | t :: rest => (from <= t)%Q /\ spaced_from interval (t + interval)%Q rest
  end.

(** Number of instants in the closed window [[a, a + T]]. *)
Definition count_in (a T : Q) (instants : list Q) : nat :=
  length (filter (in_window a T) instants).

(** The limiter of [pcd_extractor]. *)
Definition pcd_limiter_run {A : Type} (arrivals : list (Q * A)) : list (Q * A) :=
  snd (limiter_run RATE_LIMIT_INTERVAL limiter_init arrivals).

(** *** [combine_latest(pos_extractor, hdg_extractor, pcd_extractor,
        emit_on=pcd_extractor)] *)

Inductive upstream : Type := pos_extractor | hdg_extractor | pcd_extractor.

Definition upstream_eqb (a b : upstream) : bool :=
  match a, b with
  | pos_extractor, pos_extractor
  | hdg_extractor, hdg_extractor
  | pcd_extractor, pcd_extractor => true
  | _, _ => false
  end.

Definition position : Type := (R * R)%type.   (* (longitude, latitude) *)

(** An element arriving at the join, tagged by the upstream it comes from. *)
Inductive sample : Type :=
| Position (p : position)
| Heading (h : R)
| PointCloud (points : list point).

Definition who (s : sample) : upstream :=
  match s with
  | Position _ => pos_extractor
  | Heading _ => hdg_extractor
  | PointCloud _ => pcd_extractor
  end.

(** [tuple(self.last)]; an entry is [None] until its upstream has emitted. *)
Definition frame : Type :=
  (option position * option R * option (list point))%type.

Record combine_latest : Type := {
  last : frame;
  missing : list upstream
}.

Definition emit_on : list upstream := [pcd_extractor].

Definition combined_init : combine_latest :=
  {| last := (None, None, None);
     missing := [pos_extractor; hdg_extractor; pcd_extractor] |}.

Definition mem (u : upstream) (l : list upstream) : bool := existsb (upstream_eqb u) l.

Definition remove_upstream (u : upstream) (l : list upstream) : list upstream :=
  filter (fun v => negb (upstream_eqb u v)) l.

Definition store (s : sample) (l : frame) : frame :=
  let '(p, h, c) := l in
  match s with
  | Position p' => (Some p', h, c)
  | Heading h' => (p, Some h', c)
  | PointCloud c' => (p, h, Some c')
  end.

(** [combine_latest.update(x, who)]. *)
Definition combined_update (st : combine_latest) (x : sample)
  : combine_latest * option frame :=
  let missing' :=
    if negb (is_empty (missing st)) && mem (who x) (missing st)
    then remove_upstream (who x) (missing st) else missing st in
  let last' := store x (last st) in
  let st' := {| last := last'; missing := missing' |} in
  if is_empty missing' && mem (who x) emit_on then (st', Some last') else (st', None).

(** What [combined] emits at each arrival of a sequence, [None] where it
    stays silent. *)
Fixpoint combined_run (st : combine_latest) (xs : list sample) : list (option frame) :=
  match xs with
  | [] => []
  | x :: rest =>
      let '(st', out) := combined_update st x in
      out :: combined_run st' rest
  end.

(** The state of the join after a sequence of arrivals. *)
Definition combined_after (st : combine_latest) (xs : list sample) : combine_latest :=
  fold_left (fun st x => fst (combined_update st x)) xs st.

(** Whether an upstream has delivered something in [xs], and the newest
    position, heading and cloud delivered in [xs]. *)
Definition observed (u : upstream) (xs : list sample) : bool :=
  existsb (fun x => upstream_eqb (who x) u) xs.

Definition latest_position (xs : list sample) : option position :=
  fold_left (fun acc x => match x with Position p => Some p | _ => acc end) xs None.

Definition latest_heading (xs : list sample) : option R :=
  fold_left (fun acc x => match x with Heading h => Some h | _ => acc end) xs None.

Definition latest_cloud (xs : list sample) : option (list point) :=
  fold_left (fun acc x => match x with PointCloud c => Some c | _ => acc end) xs None.

(** ** main.py: the frame transformer *)

Section Transform.
Local Open Scope R_scope.

(** The three elementary rotations, angle in radians. *)
Definition rot_z (t : R) (p : point) : point :=
  let '(x, y, z) := p in (cos t * x - sin t * y, sin t * x + cos t * y, z).

Definition rot_y (t : R) (p : point) : point :=
  let '(x, y, z) := p in (cos t * x + sin t * z, y, - sin t * x + cos t * z).

Definition rot_x (t : R) (p : point) : point :=
  let '(x, y, z) := p in (x, cos t * y - sin t * z, sin t * y + cos t * z).

Definition radians (deg : R) : R := deg * (PI / 180).

(** [Rotation.from_euler("zyx", [a; b; c], degrees=True).apply]: lower-case
    axes are rotations about the fixed axes, z first, then y, then x.  The
    rotation is the exact one: the last bits of what scipy computes in
    float64 are outside of it. *)
Definition from_euler_zyx (a b c : R) (p : point) : point :=
  rot_x (radians c) (rot_y (radians b) (rot_z (radians a) p)).

(** [transform_coords], with the three [CLUON_SENSOR_ORIENTATION_*]
    integers as parameters. *)
Definition transform_coords (ORIENTATION_X ORIENTATION_Y ORIENTATION_Z : Z)
    (data : position * R * list point) : position * list point :=
  let '(pos, hdg, points) := data in
  let transform :=
    from_euler_zyx (hdg + IZR ORIENTATION_Z) (IZR ORIENTATION_Y) (IZR ORIENTATION_X) in
  (pos, map transform points).

End Transform.

(** ** Sample data *)

(** [n] big-endian 16 bit samples, each equal to 1000 ([0x03E8]). *)
Definition samples_1000 (n : nat) : list byte := concat (repeat [x03; xe8] n).

(** [n] samples equal to 50 ([0x0032], 0.5 m) and [n] samples equal to
    20000 ([0x4E20], 200 m): the two edges of the band of the range filter. *)
Definition samples_50 (n : nat) : list byte := concat (repeat [x00; x32] n).
Definition samples_20000 (n : nat) : list byte := concat (repeat [x4e; x20] n).

(** One slice at azimuth 0 with a full column of 16 samples of 1000. *)
Definition slice_0_0_16 : PointCloudReading :=
  {| startAzimuth := 0; endAzimuth := 0; entriesPerAzimuth := 16;
     distances := samples_1000 16 |}.

(** One point per entry of [VERTICAL_ANGLES_16], at azimuth 0 and range 10. *)
Definition beam_fan : list point :=
  map (fun e : R =>
         let el := (e * (PI / 180))%R in
         let az := (0 * (PI / 180))%R in
         (10 * cos el * cos az, - (10 * cos el * sin az), 10 * sin el)%R)
      VERTICAL_ANGLES_16.

(** The slice of [slice_0_0_16] announcing 10 entries per azimuth, and a
    slice without samples. *)
Definition slice_0_0_10 : PointCloudReading :=
  {| startAzimuth := 0; endAzimuth := 0; entriesPerAzimuth := 10;
     distances := samples_1000 16 |}.

Definition slice_empty : PointCloudReading :=
  {| startAzimuth := 0; endAzimuth := 0; entriesPerAzimuth := 16; distances := [] |}.

(** The 32 bytes of [samples_1000 16] cut after the first byte: two slices
    with an odd number of bytes each. *)
Definition slice_odd_head : PointCloudReading :=
  {| startAzimuth := 0; endAzimuth := 0; entriesPerAzimuth := 16;
     distances := [x03] |}.

Definition slice_odd_tail : PointCloudReading :=
  {| startAzimuth := 0; endAzimuth := 0; entriesPerAzimuth := 15;
     distances := xe8 :: samples_1000 15 |}.

(** Eight samples for sixteen beams, and three stray bytes. *)
Definition slice_half : PointCloudReading :=
  {| startAzimuth := 0; endAzimuth := 0; entriesPerAzimuth := 16;
     distances := samples_1000 8 |}.

Definition slice_3_bytes : PointCloudReading :=
  {| startAzimuth := 0; endAzimuth := 0; entriesPerAzimuth := 16;
     distances := [x03; xe8; x03] |}.

(** Frames numbered 1 to 5 produced every half second from 0 to 2, and two
    frames produced 0.1 seconds apart. *)
Definition half_second_frames : list (Q * nat) :=
  [(0, 1%nat); (0.5, 2%nat); (1, 3%nat); (1.5, 4%nat); (2, 5%nat)]%Q.

Definition two_close_frames : list (Q * nat) := [(0, 1%nat); (0.1, 2%nat)]%Q.

(** Two frames produced at 0.2 and at 0.4. *)
Definition frames_while_holding : list (Q * nat) := [(0.2, 3%nat); (0.4, 4%nat)]%Q.

(** ** Revolutions that cannot be decoded *)

(** The number of azimuths the loop generates for one slice. *)
Definition azimuth_count (msg : PointCloudReading) : nat :=
  if is_empty (distances msg) then 0%nat
  else Z.to_nat (python_int (get_number_of_points (distances msg)
                             / inject_Z (entriesPerAzimuth msg))).


(** What the filter lets through for one revolution. *)
Definition emitted (revolution : list PointCloudReading) : list (list point) :=
  match point_cloud_reading_extractor revolution with
  | Some points => [points]
  | None => []
  end.

(** Three ways in which [point_cloud_reading_extractor] ends in its
    [except] branch: a non-empty slice announces 0 entries per azimuth; the
    bytes of the revolution are odd in number; the samples are neither one
    per (azimuth, beam) pair nor a single one. *)
Definition undecodable (revolution : list PointCloudReading) : Prop :=
  (exists msg, In msg revolution /\ distances msg <> [] /\ entriesPerAzimuth msg = 0%Z)
  \/ Nat.odd (length (concat (map distances revolution))) = true
  \/ (exists azs bin,
        accumulate revolution [] [] = Ok (azs, bin) /\
        length bin <> (2 * (length azs * 16))%nat /\ length bin <> 2%nat).

(** A slice as the sensor sends it: no samples at all, or whole columns of
    16 samples (32 bytes) announced as 16 entries per azimuth. *)
Definition well_formed (msg : PointCloudReading) : Prop :=
  distances msg = [] \/
  (entriesPerAzimuth msg = 16%Z /\ (length (distances msg) mod 32 = 0)%nat).

(** Two columns of samples of 1000, swept from azimuth 10 to azimuth 20. *)
Definition slice_10_20_16 : PointCloudReading :=
  {| startAzimuth := 10; endAzimuth := 20; entriesPerAzimuth := 16;
     distances := samples_1000 32 |}.

(** Emissions that serve arrivals: each emission carries the element of
    one arrival, not before that arrival, and the emissions follow the
    order of the arrivals; arrivals may be left unserved. *)
Inductive served {A : Type} : list (Q * A) -> list (Q * A) -> Prop :=
| served_nil : served [] []
| served_drop (t : Q) (x : A) (arrivals emissions : list (Q * A)) :
    served arrivals emissions -> served ((t, x) :: arrivals) emissions
| served_emit (t e : Q) (x : A) (arrivals emissions : list (Q * A)) :
    (t <= e)%Q -> served arrivals emissions ->
    served ((t, x) :: arrivals) ((e, x) :: emissions).

(** A limiter that holds a frame back until 0.5. *)
Definition limiter_holding : @limiter nat :=
  {| latest_next := [2%nat]; cb_resumes := 0.5; rate_next := 1 |}.

(** * Properties *)

(** Evaluation of everything but the operations on real numbers. *)
Ltac evaluate :=
  cbv -[Rplus Rmult Rminus Rdiv Ropp Rinv cos sin sqrt PI IZR INR Rle_dec].

(** ** Lists: rows, products and stacks *)

Section ListFacts.
Local Open Scope R_scope.

Lemma length_concat_rows (rows : list (list R)) (n : nat) :
  Forall (fun r => length r = n) rows ->
  length (concat rows) = (length rows * n)%nat.
Proof.
  induction 1 as [| r rows Hr _ IH]; simpl; [reflexivity |].
  rewrite length_app, IH, Hr. reflexivity.
Qed.

Lemma nth_concat_rows (rows : list (list R)) (n i j : nat) :
  Forall (fun r => length r = n) rows ->
  (i < length rows)%nat -> (j < n)%nat ->
  nth (i * n + j) (concat rows) 0 = nth j (nth i rows []) 0.
Proof.
  intros Hrows. revert i.
  induction Hrows as [| r rows Hr _ IH]; intros i Hi Hj; simpl in Hi; [lia |].
  destruct i as [| i]; simpl.
  - rewrite app_nth1 by lia. reflexivity.
  - rewrite app_nth2 by lia.
    replace (n + i * n + j - length r)%nat with (i * n + j)%nat by lia.
    apply IH; lia.
Qed.

Lemma length_zip_mult (xs ys : list R) :
  length xs = length ys -> length (zip_mult xs ys) = length xs.
Proof.
  revert ys. induction xs as [| x xs IH]; intros [| y ys] H; simpl in *;
    try discriminate; [reflexivity |].
  f_equal. apply IH. lia.
Qed.

Lemma nth_zip_mult (xs ys : list R) (k : nat) :
  length xs = length ys -> (k < length xs)%nat ->
  nth k (zip_mult xs ys) 0 = nth k xs 0 * nth k ys 0.
Proof.
  revert ys k. induction xs as [| x xs IH]; intros [| y ys] k H Hk; simpl in *;
    try discriminate; try lia.
  destruct k as [| k]; [reflexivity |]. apply IH; lia.
Qed.

Lemma np_multiply_same_shape (xs ys : list R) :
  length xs = length ys -> np_multiply xs ys = Ok (zip_mult xs ys).
Proof.
  intros H. unfold np_multiply. rewrite H, Nat.eqb_refl. reflexivity.
Qed.

Lemma length_zip3 (xs ys zs : list R) :
  length xs = length ys -> length ys = length zs ->
  length (zip3 xs ys zs) = length xs.
Proof.
  revert ys zs. induction xs as [| x xs IH]; intros [| y ys] [| z zs] H1 H2;
    simpl in *; try discriminate; [reflexivity |].
  f_equal. apply IH; lia.
Qed.

Lemma nth_error_zip3 (xs ys zs : list R) (k : nat) :
  length xs = length ys -> length ys = length zs -> (k < length xs)%nat ->
  nth_error (zip3 xs ys zs) k = Some (nth k xs 0, nth k ys 0, nth k zs 0).
Proof.
  revert ys zs k. induction xs as [| x xs IH]; intros [| y ys] [| z zs] k H1 H2 Hk;
    simpl in *; try discriminate; try lia.
  destruct k as [| k]; [reflexivity |]. apply IH; lia.
Qed.

Lemma nth_map_in {A B : Type} (f : A -> B) (l : list A) (i : nat) (d : B) (d' : A) :
  (i < length l)%nat -> nth i (map f l) d = f (nth i l d').
Proof.
  intros Hi. rewrite (nth_indep _ d (f d')) by (rewrite length_map; exact Hi).
  apply map_nth.
Qed.

Lemma np_mask_filter (f : point -> bool) (points : list point) :
  np_mask points (map f points) = filter f points.
Proof.
  induction points as [| p ps IH]; simpl; [reflexivity |].
  rewrite IH. reflexivity.
Qed.

End ListFacts.

(** ** The geometry kernel *)

Section Geometry.
Local Open Scope R_scope.

Lemma meshgrid_rows_fst (elevations azimuths : list R) :
  Forall (fun r => length r = length elevations)
         (fst (np_meshgrid elevations azimuths)).
Proof. apply Forall_forall. intros r Hr. simpl in Hr.
  apply in_map_iff in Hr. destruct Hr as [a [<- _]]. reflexivity. Qed.

Lemma meshgrid_rows_snd (elevations azimuths : list R) :
  Forall (fun r => length r = length elevations)
         (snd (np_meshgrid elevations azimuths)).
Proof. apply Forall_forall. intros r Hr. simpl in Hr.
  apply in_map_iff in Hr. destruct Hr as [a [<- _]]. apply length_map. Qed.

Lemma length_flatten_els (elevations azimuths : list R) :
  length (flatten (fst (np_meshgrid elevations azimuths)))
  = (length azimuths * length elevations)%nat.
Proof.
  unfold flatten. rewrite (length_concat_rows _ _ (meshgrid_rows_fst _ _)).
  simpl. rewrite length_map. reflexivity.
Qed.

Lemma length_flatten_azs (elevations azimuths : list R) :
  length (flatten (snd (np_meshgrid elevations azimuths)))
  = (length azimuths * length elevations)%nat.
Proof.
  unfold flatten. rewrite (length_concat_rows _ _ (meshgrid_rows_snd _ _)).
  simpl. rewrite length_map. reflexivity.
Qed.

Lemma nth_flatten_els (elevations azimuths : list R) (i j : nat) :
  (i < length azimuths)%nat -> (j < length elevations)%nat ->
  nth (i * length elevations + j) (flatten (fst (np_meshgrid elevations azimuths))) 0
  = nth j elevations 0.
Proof.
  intros Hi Hj. unfold flatten.
  rewrite (nth_concat_rows _ _ _ _ (meshgrid_rows_fst _ _)); simpl;
    rewrite ?length_map; try assumption.
  rewrite (nth_map_in (fun _ : R => elevations) azimuths i [] 0 Hi). reflexivity.
Qed.

Lemma nth_flatten_azs (elevations azimuths : list R) (i j : nat) :
  (i < length azimuths)%nat -> (j < length elevations)%nat ->
  nth (i * length elevations + j) (flatten (snd (np_meshgrid elevations azimuths))) 0
  = nth i azimuths 0.
Proof.
  intros Hi Hj. unfold flatten.
  rewrite (nth_concat_rows _ _ _ _ (meshgrid_rows_snd _ _)); simpl;
    rewrite ?length_map; try assumption.
  rewrite (nth_map_in (fun y : R => map (fun _ : R => y) elevations) azimuths i [] 0 Hi).
  apply (nth_map_in (fun _ : R => nth i azimuths 0) elevations j 0 0 Hj).
Qed.


Lemma sph2cart_same_shape (azimuths elevations distances : list R) :
  length distances = (length azimuths * length elevations)%nat ->
  let els := flatten (fst (np_meshgrid elevations azimuths)) in
  let azs := flatten (snd (np_meshgrid elevations azimuths)) in
  sph2cart azimuths elevations distances
  = Ok (zip_mult (zip_mult distances (np_cos els)) (np_cos azs),
        zip_mult (zip_mult distances (np_cos els)) (np_sin azs),
        zip_mult distances (np_sin els)).
Proof.
  intros Hlen els azs. unfold sph2cart.
  change (np_meshgrid elevations azimuths)
    with (fst (np_meshgrid elevations azimuths), snd (np_meshgrid elevations azimuths)).
  cbv beta iota. fold els azs.
  assert (Hels : length els = length distances)
    by (unfold els; rewrite length_flatten_els; lia).
  assert (Hazs : length azs = length distances)
    by (unfold azs; rewrite length_flatten_azs; lia).
  assert (Hdc : length (zip_mult distances (np_cos els)) = length distances)
    by (apply length_zip_mult; unfold np_cos; rewrite length_map; lia).
  rewrite (np_multiply_same_shape distances (np_cos els))
    by (unfold np_cos; rewrite length_map; lia).
  cbn [bind].
  rewrite (np_multiply_same_shape _ (np_cos azs))
    by (rewrite Hdc; unfold np_cos; rewrite length_map; lia).
  cbn [bind].
  rewrite (np_multiply_same_shape _ (np_sin azs))
    by (rewrite Hdc; unfold np_sin; rewrite length_map; lia).
  cbn [bind].
  rewrite (np_multiply_same_shape distances (np_sin els))
    by (unfold np_sin; rewrite length_map; lia).
  reflexivity.
Qed.

(** C1. With as many ranges as there are (azimuth, elevation) pairs, the
    conversion succeeds, yields one point per pair, and the point at index
    [i * |elevations| + j] is built from azimuth [i], elevation [j] and the
    range at that same index: [x = d cos el cos az], [y = - d cos el sin az],
    [z = d sin el]. *)
Theorem cartesian_points_layout (azimuths elevations ranges : list R) :
  length ranges = (length azimuths * length elevations)%nat ->
  exists points,
    cartesian_points azimuths elevations ranges = Ok points /\
    length points = (length azimuths * length elevations)%nat /\
    forall i j, (i < length azimuths)%nat -> (j < length elevations)%nat ->
      let k := (i * length elevations + j)%nat in
      let d := nth k ranges 0 in
      let az := nth i azimuths 0 in
      let el := nth j elevations 0 in
      nth_error points k
      = Some (d * cos el * cos az, - (d * cos el * sin az), d * sin el).
Proof.
  intros Hlen.
  set (els := flatten (fst (np_meshgrid elevations azimuths))).
  set (azs := flatten (snd (np_meshgrid elevations azimuths))).
  assert (Hce : length (np_cos els) = length ranges)
    by (unfold np_cos, els; rewrite length_map, length_flatten_els; lia).
  assert (Hse : length (np_sin els) = length ranges)
    by (unfold np_sin, els; rewrite length_map, length_flatten_els; lia).
  assert (Hca : length (np_cos azs) = length ranges)
    by (unfold np_cos, azs; rewrite length_map, length_flatten_azs; lia).
  assert (Hsa : length (np_sin azs) = length ranges)
    by (unfold np_sin, azs; rewrite length_map, length_flatten_azs; lia).
  assert (Hdc : length (zip_mult ranges (np_cos els)) = length ranges)
    by (apply length_zip_mult; lia).
  assert (Hx : length (zip_mult (zip_mult ranges (np_cos els)) (np_cos azs)) = length ranges)
    by (rewrite length_zip_mult; lia).
  assert (Hy0 : length (zip_mult (zip_mult ranges (np_cos els)) (np_sin azs)) = length ranges)
    by (rewrite length_zip_mult; lia).
  assert (Hy : length (np_negative (zip_mult (zip_mult ranges (np_cos els)) (np_sin azs)))
               = length ranges)
    by (unfold np_negative; rewrite length_map; exact Hy0).
  assert (Hz : length (zip_mult ranges (np_sin els)) = length ranges)
    by (apply length_zip_mult; lia).
  eexists. split; [| split].
  - unfold cartesian_points. rewrite (sph2cart_same_shape _ _ _ Hlen).
    fold els azs. cbn [bind]. unfold np_column_stack.
    rewrite Hx, Hy, Hz, Nat.eqb_refl. reflexivity.
  - rewrite length_zip3; lia.
  - intros i j Hi Hj k d az el.
    assert (Hk : (k < length ranges)%nat) by (unfold k; nia).
    rewrite nth_error_zip3 by lia.
    unfold np_negative at 1.
    rewrite (nth_map_in Ropp _ k 0 0) by lia.
    rewrite !nth_zip_mult by lia.
    unfold np_cos, np_sin in *. rewrite length_map in *.
    rewrite !(nth_map_in _ _ k 0 0) by lia.
    unfold els, azs, k.
    rewrite nth_flatten_els, nth_flatten_azs by assumption.
    reflexivity.
Qed.


(** The layout at a concrete grid: two azimuths, three elevations. *)
Lemma cartesian_points_layout_witness :
  exists points,
    cartesian_points [0; 1] [2; 3; 4] [5; 6; 7; 8; 9; 10] = Ok points /\
    length points = 6%nat /\
    nth_error points 5 = Some (10 * cos 4 * cos 1, - (10 * cos 4 * sin 1), 10 * sin 4).
Proof.
  destruct (cartesian_points_layout [0; 1] [2; 3; 4] [5; 6; 7; 8; 9; 10] eq_refl)
    as [points [H1 [H2 H3]]].
  exists points. split; [exact H1 | split; [exact H2 |]].
  apply (H3 1%nat 2%nat); simpl; lia.
Defined.

End Geometry.

(** ** Broadcasting *)

Section Broadcasting.
Local Open Scope R_scope.

Lemma np_multiply_shape (xs ys zs : list R) :
  np_multiply xs ys = Ok zs ->
  (length xs = length ys \/ length xs = 1 \/ length ys = 1)%nat /\
  length zs = (if Nat.eqb (length xs) 1 then length ys else length xs).
Proof.
  unfold np_multiply.
  destruct (Nat.eqb (length xs) (length ys)) eqn:E.
  - apply Nat.eqb_eq in E. intros [= <-]. split; [left; exact E |].
    rewrite (length_zip_mult _ _ E).
    destruct (Nat.eqb (length xs) 1) eqn:E1; [apply Nat.eqb_eq in E1; lia | reflexivity].
  - apply Nat.eqb_neq in E.
    destruct xs as [| x [| x' xs]].
    + destruct ys as [| y [| y' ys]]; try discriminate.
      intros [= <-]. split; [right; right; reflexivity | reflexivity].
    + intros [= <-]. split; [right; left; reflexivity |]. simpl. apply length_map.
    + destruct ys as [| y [| y' ys]]; try discriminate.
      intros [= <-]. split; [right; right; reflexivity |]. simpl.
      rewrite length_map. reflexivity.
Qed.

Lemma np_multiply_nth (xs ys zs : list R) (k : nat) :
  np_multiply xs ys = Ok zs -> (k < length zs)%nat ->
  nth k zs 0 = nth (bidx (length xs) k) xs 0 * nth (bidx (length ys) k) ys 0.
Proof.
  unfold np_multiply, bidx.
  destruct (Nat.eqb (length xs) (length ys)) eqn:E.
  - apply Nat.eqb_eq in E. intros [= <-] Hk.
    rewrite (length_zip_mult _ _ E) in Hk.
    rewrite (nth_zip_mult _ _ _ E Hk). rewrite <- E.
    destruct (Nat.eqb (length xs) 1) eqn:E1; [| reflexivity].
    apply Nat.eqb_eq in E1. replace k with 0%nat by lia. reflexivity.
  - apply Nat.eqb_neq in E.
    destruct xs as [| x [| x' xs]].
    + destruct ys as [| y [| y' ys]]; try discriminate.
      intros [= <-] Hk. simpl in Hk. lia.
    + intros [= <-] Hk. rewrite length_map in Hk.
      rewrite (nth_map_in (fun y => x * y) ys k 0 0 Hk). simpl.
      destruct (Nat.eqb (length ys) 1) eqn:E1; [simpl in E; apply Nat.eqb_eq in E1; lia |].
      reflexivity.
    + destruct ys as [| y [| y' ys]]; try discriminate.
      intros [= <-] Hk.
      assert (Hk' : (k < length (x :: x' :: xs))%nat)
        by (rewrite <- (length_map (fun x0 => x0 * y)); exact Hk).
      exact (nth_map_in (fun x0 => x0 * y) (x :: x' :: xs) k 0 0 Hk').
Qed.

End Broadcasting.

(** ** The range filter *)

Section RangeFilter.
Local Open Scope R_scope.

Lemma Rleb_true (a b : R) : Rleb a b = true <-> a <= b.
Proof.
  unfold Rleb. destruct (Rle_dec a b) as [H | H]; split; intros H'; try assumption;
    try reflexivity; [discriminate | contradiction].
Qed.

Lemma usable_iff (n : R) : usable n = true <-> 0.5 <= n <= 200.
Proof.
  unfold usable. rewrite andb_true_iff, !Rleb_true. reflexivity.
Qed.

Lemma norm_of_square (x y z r : R) :
  x * x + y * y + z * z = r * r -> norm (x, y, z) = Rabs r.
Proof.
  intros H. unfold norm. rewrite H. apply sqrt_Rsqr_abs.
Qed.

Lemma cos_sin_square (t : R) : cos t * cos t + sin t * sin t = 1.
Proof. generalize (sin2_cos2 t). unfold Rsqr. lra. Qed.

Lemma norm_spherical (d az el : R) :
  norm (d * cos el * cos az, - (d * cos el * sin az), d * sin el) = Rabs d.
Proof.
  apply norm_of_square.
  replace (d * cos el * cos az * (d * cos el * cos az)
           + - (d * cos el * sin az) * - (d * cos el * sin az)
           + d * sin el * (d * sin el))
    with (d * d * (cos el * cos el * (cos az * cos az + sin az * sin az)
                   + sin el * sin el)) by ring.
  rewrite (cos_sin_square az), Rmult_1_r, (cos_sin_square el). ring.
Qed.

Lemma get_points_filter (azimuths elevations : list R) (binary_distances : list byte) :
  get_points azimuths elevations binary_distances
  = (points <- candidate_points azimuths elevations binary_distances ;;
     Ok (filter (fun p => usable (norm p)) points)).
Proof.
  unfold get_points, candidate_points, decode_distances, cartesian_points.
  destruct (np_frombuffer_u2 binary_distances) as [raw | e]; cbn [bind];
    [| reflexivity].
  rewrite map_map.
  destruct (sph2cart _ _ _) as [[[xs ys] zs] | e]; cbn [bind]; [| reflexivity].
  destruct (np_column_stack _ _ _) as [points | e]; cbn [bind]; [| reflexivity].
  rewrite map_map, np_mask_filter. reflexivity.
Qed.

Lemma get_points_usable (azimuths elevations : list R) (binary_distances : list byte)
    (points : list point) :
  get_points azimuths elevations binary_distances = Ok points ->
  Forall (fun p => usable (norm p) = true) points.
Proof.
  rewrite get_points_filter.
  destruct (candidate_points _ _ _) as [cands | e]; simpl; [| discriminate].
  intros [= <-]. apply Forall_forall. intros p Hp.
  apply filter_In in Hp. apply Hp.
Qed.

Lemma extractor_get_points (envelopes : list PointCloudReading) (points : list point) :
  point_cloud_reading_extractor envelopes = Some points ->
  points <> [] /\
  exists all_azimuths all_binary_distances,
    accumulate envelopes [] [] = Ok (all_azimuths, all_binary_distances) /\
    get_points (np_deg2rad all_azimuths) (np_deg2rad VERTICAL_ANGLES_16)
               all_binary_distances = Ok points.
Proof.
  unfold point_cloud_reading_extractor, extract_points.
  destruct (accumulate envelopes [] []) as [[azs bin] | e]; cbn [bind]; [| discriminate].
  destruct (get_points _ _ bin) as [pts | e] eqn:Hget; [| discriminate].
  destruct pts as [| p pts]; simpl; [discriminate |].
  intros [= <-]. split; [discriminate |].
  exists azs, bin. split; [reflexivity | exact Hget].
Qed.

Lemma be_u2_nonneg (buf : list byte) : Forall (fun u => (0 <= u < 65536)%Z) (be_u2 buf).
Proof.
  assert (H : forall n buf, (length buf <= n)%nat ->
                            Forall (fun u => (0 <= u < 65536)%Z) (be_u2 buf)).
  { induction n as [| n IH]; intros [| hi [| lo rest]] Hn; cbn [be_u2 length] in *;
      try constructor; try lia.
    - generalize (Byte.to_N_bounded hi) (Byte.to_N_bounded lo). lia.
    - apply IH. lia. }
  apply (H (length buf)). lia.
Qed.

Lemma length_be_u2 (n : nat) (buf : list byte) :
  length buf = (2 * n)%nat -> length (be_u2 buf) = n.
Proof.
  revert buf. induction n as [| n IH]; intros [| hi [| lo rest]] H;
    cbn [be_u2 length] in *; try lia.
  f_equal. apply IH. lia.
Qed.

End RangeFilter.

Section RangeFilterClaims.
Local Open Scope R_scope.

(** C5. Every point of a cloud that leaves the decoder lies in the band
    [0.5 <= sqrt (x^2 + y^2 + z^2) <= 200]: a point outside of it is in no
    point cloud. *)
Theorem point_cloud_within_band (envelopes : list PointCloudReading)
    (points : list point) :
  point_cloud_reading_extractor envelopes = Some points ->
  Forall (fun '(x, y, z) => 0.5 <= sqrt (x * x + y * y + z * z) <= 200) points.
Proof.
  intros H. apply extractor_get_points in H.
  destruct H as [_ [azs [bin [_ Hget]]]].
  apply get_points_usable in Hget.
  eapply Forall_impl; [| exact Hget].
  intros [[x y] z] Hp. apply usable_iff in Hp. exact Hp.
Qed.

End RangeFilterClaims.

(** ** [get_points] with the arithmetic as a parameter *)

Section FloatShapes.
Context {F : Type} (fl : arith F).

Lemma length_zip_mult_fl (xs ys : list F) :
  length xs = length ys -> length (zip_mult_fl fl xs ys) = length xs.
Proof.
  revert ys. induction xs as [| x xs IH]; intros [| y ys] H; simpl in *;
    try discriminate; [reflexivity |].
  f_equal. apply IH. lia.
Qed.

Lemma nth_zip_mult_fl (xs ys : list F) (k : nat) (o : F) :
  length xs = length ys -> (k < length xs)%nat ->
  nth k (zip_mult_fl fl xs ys) o = f_mul fl (nth k xs o) (nth k ys o).
Proof.
  revert ys k. induction xs as [| x xs IH]; intros [| y ys] k H Hk; simpl in *;
    try discriminate; try lia.
  destruct k as [| k]; [reflexivity |]. apply IH; lia.
Qed.

Lemma np_multiply_fl_shape (xs ys zs : list F) :
  np_multiply_fl fl xs ys = Ok zs ->
  (length xs = length ys \/ length xs = 1 \/ length ys = 1)%nat /\
  length zs = (if Nat.eqb (length xs) 1 then length ys else length xs).
Proof.
  unfold np_multiply_fl.
  destruct (Nat.eqb (length xs) (length ys)) eqn:E.
  - apply Nat.eqb_eq in E. intros [= <-]. split; [left; exact E |].
    rewrite (length_zip_mult_fl _ _ E).
    destruct (Nat.eqb (length xs) 1) eqn:E1; [apply Nat.eqb_eq in E1; lia | reflexivity].
  - apply Nat.eqb_neq in E.
    destruct xs as [| x [| x' xs]].
    + destruct ys as [| y [| y' ys]]; try discriminate.
      intros [= <-]. split; [right; right; reflexivity | reflexivity].
    + intros [= <-]. split; [right; left; reflexivity |]. simpl. apply length_map.
    + destruct ys as [| y [| y' ys]]; try discriminate.
      intros [= <-]. split; [right; right; reflexivity |]. simpl.
      rewrite length_map. reflexivity.
Qed.

Lemma np_multiply_fl_nth (xs ys zs : list F) (k : nat) (o : F) :
  np_multiply_fl fl xs ys = Ok zs -> (k < length zs)%nat ->
  nth k zs o
  = f_mul fl (nth (bidx (length xs) k) xs o) (nth (bidx (length ys) k) ys o).
Proof.
  unfold np_multiply_fl, bidx.
  destruct (Nat.eqb (length xs) (length ys)) eqn:E.
  - apply Nat.eqb_eq in E. intros [= <-] Hk.
    rewrite (length_zip_mult_fl _ _ E) in Hk.
    rewrite (nth_zip_mult_fl _ _ _ o E Hk). rewrite <- E.
    destruct (Nat.eqb (length xs) 1) eqn:E1; [| reflexivity].
    apply Nat.eqb_eq in E1. replace k with 0%nat by lia. reflexivity.
  - apply Nat.eqb_neq in E.
    destruct xs as [| x [| x' xs]].
    + destruct ys as [| y [| y' ys]]; try discriminate.
      intros [= <-] Hk. simpl in Hk. lia.
    + intros [= <-] Hk. rewrite length_map in Hk.
      rewrite (nth_map_in (fun y => f_mul fl x y) ys k o o Hk). simpl.
      destruct (Nat.eqb (length ys) 1) eqn:E1; [simpl in E; apply Nat.eqb_eq in E1; lia |].
      reflexivity.
    + destruct ys as [| y [| y' ys]]; try discriminate.
      intros [= <-] Hk.
      assert (Hk' : (k < length (x :: x' :: xs))%nat)
        by (rewrite <- (length_map (fun x0 => f_mul fl x0 y)); exact Hk).
      exact (nth_map_in (fun x0 => f_mul fl x0 y) (x :: x' :: xs) k o o Hk').
Qed.

Lemma length_zip3_fl (xs ys zs : list F) :
  length xs = length ys -> length ys = length zs ->
  length (zip3_fl xs ys zs) = length xs.
Proof.
  revert ys zs. induction xs as [| x xs IH]; intros [| y ys] [| z zs] H1 H2;
    simpl in *; try discriminate; [reflexivity |].
  f_equal. apply IH; lia.
Qed.

Lemma nth_error_zip3_fl (xs ys zs : list F) (k : nat) (o : F) :
  length xs = length ys -> length ys = length zs -> (k < length xs)%nat ->
  nth_error (zip3_fl xs ys zs) k = Some (nth k xs o, nth k ys o, nth k zs o).
Proof.
  revert ys zs k. induction xs as [| x xs IH]; intros [| y ys] [| z zs] k H1 H2 Hk;
    simpl in *; try discriminate; try lia.
  destruct k as [| k]; [reflexivity |]. apply IH; lia.
Qed.

Lemma length_flatten_fl_els (elevations azimuths : list F) :
  length (flatten_fl (fst (np_meshgrid_fl elevations azimuths)))
  = (length azimuths * length elevations)%nat.
Proof.
  unfold flatten_fl. simpl.
  induction azimuths as [| a azs IH]; simpl; [reflexivity |].
  rewrite length_app, IH. reflexivity.
Qed.

Lemma length_flatten_fl_azs (elevations azimuths : list F) :
  length (flatten_fl (snd (np_meshgrid_fl elevations azimuths)))
  = (length azimuths * length elevations)%nat.
Proof.
  unfold flatten_fl. simpl.
  induction azimuths as [| a azs IH]; simpl; [reflexivity |].
  rewrite length_app, length_map, IH. reflexivity.
Qed.

Lemma in_flatten_fl_els (elevations azimuths : list F) (x : F) :
  In x (flatten_fl (fst (np_meshgrid_fl elevations azimuths))) -> In x elevations.
Proof.
  unfold flatten_fl. simpl. intros H. apply in_concat in H.
  destruct H as [row [Hrow Hx]]. apply in_map_iff in Hrow.
  destruct Hrow as [a [<- _]]. exact Hx.
Qed.

Lemma in_flatten_fl_azs (elevations azimuths : list F) (x : F) :
  In x (flatten_fl (snd (np_meshgrid_fl elevations azimuths))) -> In x azimuths.
Proof.
  unfold flatten_fl. simpl. intros H. apply in_concat in H.
  destruct H as [row [Hrow Hx]]. apply in_map_iff in Hrow.
  destruct Hrow as [a [<- Ha]]. apply in_map_iff in Hx.
  destruct Hx as [e [<- _]]. exact Ha.
Qed.

Lemma np_mask_fl_filter (f : F * F * F -> bool) (points : list (F * F * F)) :
  np_mask_fl points (map f points) = filter f points.
Proof.
  induction points as [| p ps IH]; simpl; [reflexivity |].
  rewrite IH. reflexivity.
Qed.

Lemma get_points_fl_filter (azimuths elevations : list F) (binary_distances : list byte) :
  get_points_fl fl azimuths elevations binary_distances
  = (points <- candidate_points_fl fl azimuths elevations binary_distances ;;
     Ok (filter (fun p => usable_fl fl (norm_fl fl p)) points)).
Proof.
  unfold get_points_fl, candidate_points_fl.
  destruct (np_frombuffer_u2 binary_distances) as [raw | e]; cbn [bind];
    [| reflexivity].
  rewrite map_map.
  destruct (sph2cart_fl _ _ _ _) as [[[xs ys] zs] | e]; cbn [bind]; [| reflexivity].
  destruct (np_column_stack_fl _ _ _) as [points | e]; cbn [bind]; [| reflexivity].
  rewrite map_map, np_mask_fl_filter. reflexivity.
Qed.

(** The candidate at position [k], with or without broadcasting, is
    built from one sample of the buffer, one azimuth and one elevation by
    the operations of [fl], in the order in which the code applies them. *)
Lemma candidate_points_fl_nth (azimuths elevations : list F)
    (binary_distances : list byte) (points : list (F * F * F)) (k : nat)
    (p : F * F * F) :
  candidate_points_fl fl azimuths elevations binary_distances = Ok points ->
  nth_error points k = Some p ->
  exists u az el,
    nth_error (be_u2 binary_distances) (bidx (length (be_u2 binary_distances)) k)
    = Some u /\
    In az azimuths /\ In el elevations /\
    let d := f_div fl (f_of_Z fl u) (f_of_Z fl 100) in
    p = (f_mul fl (f_mul fl d (f_cos fl el)) (f_cos fl az),
         f_neg fl (f_mul fl (f_mul fl d (f_cos fl el)) (f_sin fl az)),
         f_mul fl d (f_sin fl el)).
Proof.
  unfold candidate_points_fl, np_frombuffer_u2.
  destruct (Nat.even (length binary_distances)); cbn [bind]; [| discriminate].
  set (raw := be_u2 binary_distances).
  set (ds := map (fun u => f_div fl (f_of_Z fl u) (f_of_Z fl 100)) raw).
  unfold sph2cart_fl.
  change (np_meshgrid_fl elevations azimuths)
    with (fst (np_meshgrid_fl elevations azimuths),
          snd (np_meshgrid_fl elevations azimuths)).
  cbv beta iota.
  set (els := flatten_fl (fst (np_meshgrid_fl elevations azimuths))).
  set (azs := flatten_fl (snd (np_meshgrid_fl elevations azimuths))).
  assert (Hm : length els = length azs)
    by (unfold els, azs; rewrite length_flatten_fl_els, length_flatten_fl_azs;
        reflexivity).
  destruct (np_multiply_fl fl ds (map (f_cos fl) els)) as [dc | e] eqn:Hdc; cbn [bind];
    [| discriminate].
  destruct (np_multiply_fl fl dc (map (f_cos fl) azs)) as [xs | e] eqn:Hxs; cbn [bind];
    [| discriminate].
  destruct (np_multiply_fl fl dc (map (f_sin fl) azs)) as [ys | e] eqn:Hys; cbn [bind];
    [| discriminate].
  destruct (np_multiply_fl fl ds (map (f_sin fl) els)) as [zs | e] eqn:Hzs; cbn [bind];
    [| discriminate].
  unfold np_column_stack_fl.
  destruct (Nat.eqb (length xs) (length (map (f_neg fl) ys))
            && Nat.eqb (length (map (f_neg fl) ys)) (length zs)) eqn:Hst;
    [| discriminate].
  intros [= <-] Hk.
  apply andb_true_iff in Hst. destruct Hst as [Hxy Hyz].
  apply Nat.eqb_eq in Hxy, Hyz.
  assert (Hlt : (k < length (zip3_fl xs (map (f_neg fl) ys) zs))%nat)
    by (apply nth_error_Some; rewrite Hk; discriminate).
  rewrite (length_zip3_fl _ _ _ Hxy Hyz) in Hlt.
  set (o := f_of_Z fl 0).
  rewrite (nth_error_zip3_fl _ _ _ _ o Hxy Hyz Hlt) in Hk. injection Hk as <-.
  rewrite length_map in Hxy, Hyz.
  rewrite (nth_map_in (f_neg fl) ys k o o) by lia.
  destruct (np_multiply_fl_shape _ _ _ Hdc) as [Sdc Ldc].
  destruct (np_multiply_fl_shape _ _ _ Hxs) as [Sxs Lxs].
  rewrite (np_multiply_fl_nth _ _ _ k o Hxs) by lia.
  rewrite (np_multiply_fl_nth _ _ _ k o Hys) by lia.
  rewrite (np_multiply_fl_nth _ _ _ k o Hzs) by lia.
  rewrite !length_map in *.
  assert (Hidx : bidx (length dc) k = k /\ (k < length dc)%nat /\
                 (bidx (length ds) k < length ds)%nat /\
                 (bidx (length els) k < length els)%nat).
  { revert Ldc Lxs. unfold bidx.
    destruct (Nat.eqb_spec (length dc) 1), (Nat.eqb_spec (length ds) 1),
      (Nat.eqb_spec (length els) 1); intros Ldc Lxs; lia. }
  destruct Hidx as [Hkd [Hkdc [Hkr Hke]]].
  assert (Hka : (bidx (length azs) k < length azs)%nat) by (rewrite <- Hm; exact Hke).
  rewrite Hkd.
  rewrite (np_multiply_fl_nth _ _ _ _ o Hdc Hkdc).
  rewrite !length_map.
  assert (Hraw : length ds = length raw) by (unfold ds; apply length_map).
  rewrite Hraw in *.
  exists (nth (bidx (length raw) k) raw 0%Z),
         (nth (bidx (length azs) k) azs o),
         (nth (bidx (length els) k) els o).
  split; [apply nth_error_nth'; exact Hkr |].
  split; [apply (in_flatten_fl_azs elevations); apply nth_In; exact Hka |].
  split; [apply (in_flatten_fl_els elevations azimuths); apply nth_In; exact Hke |].
  cbv zeta.
  rewrite (nth_map_in (f_cos fl) els _ o o Hke), (nth_map_in (f_sin fl) els _ o o Hke),
    (nth_map_in (f_cos fl) azs _ o o Hka), (nth_map_in (f_sin fl) azs _ o o Hka).
  unfold ds.
  rewrite (nth_map_in (fun u => f_div fl (f_of_Z fl u) (f_of_Z fl 100)) raw _ o 0%Z Hkr).
  reflexivity.
Qed.

End FloatShapes.

Section ExactArithmetic.
Local Open Scope R_scope.

(** With the exact operations, the parametrised [get_points] is the
    [get_points] of the first part, and its candidates are those of the
    first part. *)
Lemma get_points_fl_exact (azimuths elevations : list R) (binary_distances : list byte) :
  get_points_fl exact azimuths elevations binary_distances
  = get_points azimuths elevations binary_distances.
Proof. reflexivity. Qed.

Lemma candidate_points_fl_exact (azimuths elevations : list R)
    (binary_distances : list byte) :
  candidate_points_fl exact azimuths elevations binary_distances
  = candidate_points azimuths elevations binary_distances.
Proof.
  unfold candidate_points_fl, candidate_points, decode_distances.
  destruct (np_frombuffer_u2 binary_distances) as [raw | e]; reflexivity.
Qed.

End ExactArithmetic.

(** ** The range filter under rounding *)

Section Closeness.
Local Open Scope R_scope.

Lemma Rabs_bounds (a b : R) : Rabs a <= b -> - b <= a <= b.
Proof. unfold Rabs. destruct (Rcase_abs a); lra. Qed.

Lemma within_weaken (eps eps' a b : R) :
  within eps a b -> eps <= eps' -> within eps' a b.
Proof. unfold within. intros H1 H2. lra. Qed.

Lemma within_bound (eps a b M : R) :
  within eps a b -> Rabs b <= M -> Rabs a <= M + eps.
Proof.
  unfold within. intros H1 H2.
  replace a with (b + (a - b)) by ring.
  eapply Rle_trans; [apply Rabs_triang | lra].
Qed.

Lemma Rabs_mult_le (a b M N : R) :
  Rabs a <= M -> Rabs b <= N -> Rabs (a * b) <= M * N.
Proof.
  intros Ha Hb. rewrite Rabs_mult.
  apply Rmult_le_compat; try apply Rabs_pos; assumption.
Qed.

Lemma within_mul (ea eb MA Mb a A b B : R) :
  within ea a A -> within eb b B -> Rabs A <= MA -> Rabs b <= Mb ->
  within (ea * Mb + MA * eb) (a * b) (A * B).
Proof.
  unfold within. intros Ha Hb HA Hb'.
  replace (a * b - A * B) with ((a - A) * b + A * (b - B)) by ring.
  eapply Rle_trans; [apply Rabs_triang |].
  apply Rplus_le_compat; apply Rabs_mult_le; assumption.
Qed.

Lemma within_add (ea eb a A b B : R) :
  within ea a A -> within eb b B -> within (ea + eb) (a + b) (A + B).
Proof.
  unfold within. intros Ha Hb.
  replace (a + b - (A + B)) with ((a - A) + (b - B)) by ring.
  eapply Rle_trans; [apply Rabs_triang | lra].
Qed.

Lemma within_opp (eps a A : R) : within eps a A -> within eps (- a) (- A).
Proof.
  unfold within. intros H.
  replace (- a - - A) with (- (a - A)) by ring. rewrite Rabs_Ropp. exact H.
Qed.

End Closeness.

Section Rounding.
Local Open Scope R_scope.

(** Operations that round to within [2^-32] on numbers up to [2^21], and
    a cosine and a sine within [2^-32] of the exact ones. *)
Variables rnd fcos fsin : R -> R.
Hypothesis Hrnd : forall x, Rabs x <= 2097152 -> Rabs (rnd x - x) <= / 4294967296.
Hypothesis Hcos : forall x, Rabs (fcos x - cos x) <= / 4294967296.
Hypothesis Hsin : forall x, Rabs (fsin x - sin x) <= / 4294967296.

Lemma within_rnd (eps M a A : R) :
  within eps a A -> Rabs A <= M -> M + eps <= 2097152 ->
  within (eps + / 4294967296) (rnd a) A.
Proof.
  intros Ha HA HM.
  pose proof (within_bound _ _ _ _ Ha HA) as Hb.
  assert (Hr : Rabs (rnd a - a) <= / 4294967296) by (apply Hrnd; lra).
  unfold within in *.
  replace (rnd a - A) with ((rnd a - a) + (a - A)) by ring.
  eapply Rle_trans; [apply Rabs_triang | lra].
Qed.

Lemma Rabs_cos_le (t : R) : Rabs (cos t) <= 1.
Proof. apply Rabs_le. apply COS_bound. Qed.

Lemma Rabs_sin_le (t : R) : Rabs (sin t) <= 1.
Proof. apply Rabs_le. apply SIN_bound. Qed.

(** A factor of a product: the computed factor [b] is within [2^-32] of
    a number [B] of absolute value at most 1. *)
Lemma within_scaled (eps D a A b B : R) :
  0 <= D <= 656 -> 0 <= eps <= 1 ->
  within eps a A -> Rabs A <= D ->
  within (/ 4294967296) b B -> Rabs B <= 1 ->
  within (eps + (eps + D + 1) * / 4294967296) (rnd (a * b)) (A * B) /\
  Rabs (A * B) <= D.
Proof.
  intros HD Heps Ha HA Hb HB.
  assert (Hb' : Rabs b <= 1 + / 4294967296) by (apply (within_bound _ _ _ _ Hb HB)).
  pose proof (within_mul _ _ _ _ _ _ _ _ Ha Hb HA Hb') as Hm.
  assert (HAB : Rabs (A * B) <= D).
  { replace D with (D * 1) by ring. apply Rabs_mult_le; assumption. }
  split; [| exact HAB].
  eapply within_weaken.
  - apply (within_rnd _ D _ _ Hm HAB). nra.
  - nra.
Qed.

(** The norm that the code computes for a candidate differs from the
    range [u / 100] of its sample by at most [1 / 400]: a quarter of the
    step between two ranges. *)
Lemma rounded_norm_error (u : Z) (az el : R) :
  (0 <= u < 65536)%Z ->
  let d := rnd (IZR u / 100) in
  let p := (rnd (rnd (d * fcos el) * fcos az),
            - rnd (rnd (d * fcos el) * fsin az),
            rnd (d * fsin el)) in
  Rabs (norm_fl (rounded rnd fcos fsin) p - IZR u / 100) <= 1 / 400.
Proof.
  intros Hu d p.
  set (D := IZR u / 100) in *.
  assert (HD : 0 <= D <= 65535 / 100).
  { unfold D. destruct Hu as [H0 H1].
    apply IZR_le in H0. assert (H2 : (u <= 65535)%Z) by lia. apply IZR_le in H2. lra. }
  assert (Hstep : D = 0 \/ 1 / 100 <= D).
  { unfold D. destruct (Z.eq_dec u 0) as [-> | Hne]; [left; lra | right].
    assert (H1 : (1 <= u)%Z) by lia. apply IZR_le in H1. lra. }
  assert (HDabs : Rabs D <= D) by (rewrite Rabs_pos_eq; lra).
  assert (Hd : within (/ 4294967296) d D).
  { unfold within, d. apply Hrnd. rewrite Rabs_pos_eq; lra. }
  set (e := / 4294967296) in *.
  assert (He : e = / 4294967296) by reflexivity.
  destruct (within_scaled e D d D (fcos el) (cos el)) as [Hdx HDC];
    [lra | lra | exact Hd | exact HDabs | apply Hcos | apply Rabs_cos_le |].
  destruct (within_scaled (e + (e + D + 1) * e) D (rnd (d * fcos el)) (D * cos el)
                          (fcos az) (cos az)) as [Hx HX];
    [lra | nra | exact Hdx | exact HDC | apply Hcos | apply Rabs_cos_le |].
  destruct (within_scaled (e + (e + D + 1) * e) D (rnd (d * fcos el)) (D * cos el)
                          (fsin az) (sin az)) as [Hy HY];
    [lra | nra | exact Hdx | exact HDC | apply Hsin | apply Rabs_sin_le |].
  destruct (within_scaled e D d D (fsin el) (sin el)) as [Hz HZ];
    [lra | lra | exact Hd | exact HDabs | apply Hsin | apply Rabs_sin_le |].
  unfold e in *. clear e He.
  apply within_opp in Hy.
  set (x := rnd (rnd (d * fcos el) * fcos az)) in *.
  set (y := - rnd (rnd (d * fcos el) * fsin az)) in *.
  set (z := rnd (d * fsin el)) in *.
  set (X := D * cos el * cos az) in *.
  set (Y := - (D * cos el * sin az)) in *.
  set (Z := D * sin el) in *.
  assert (HY' : Rabs Y <= D) by (unfold Y; rewrite Rabs_Ropp; exact HY).
  set (E := / 4294967296 * (5 + 2 * D)).
  assert (HE : 0 <= E <= / 1000000) by (unfold E; lra).
  assert (Hx' : within E x X) by (eapply within_weaken; [exact Hx | unfold E; nra]).
  assert (Hy' : within E y Y) by (eapply within_weaken; [exact Hy | unfold E; nra]).
  assert (Hz' : within E z Z) by (eapply within_weaken; [exact Hz | unfold E; nra]).
  clear Hx Hy Hz.
  assert (Hsq : forall a A, within E a A -> Rabs A <= D ->
                  within (1312 * E + / 4294967296) (rnd (a * a)) (A * A) /\
                  Rabs (A * A) <= 430336).
  { intros a A Ha HA.
    assert (HA' : Rabs A <= 656) by lra.
    assert (Ha' : Rabs a <= 656) by (pose proof (within_bound _ _ _ _ Ha HA); lra).
    pose proof (within_mul _ _ _ _ _ _ _ _ Ha Ha HA' Ha') as Hm.
    assert (HAA : Rabs (A * A) <= 430336)
      by (replace 430336 with (656 * 656) by lra; apply Rabs_mult_le; assumption).
    split; [| exact HAA].
    eapply within_weaken; [apply (within_rnd _ 430336 _ _ Hm HAA); lra | lra]. }
  destruct (Hsq x X Hx' HX) as [Hxx HXX].
  destruct (Hsq y Y Hy' HY') as [Hyy HYY].
  destruct (Hsq z Z Hz' HZ) as [Hzz HZZ].
  pose proof (within_add _ _ _ _ _ _ Hxx Hyy) as Hs1.
  assert (HS1 : Rabs (X * X + Y * Y) <= 860672)
    by (eapply Rle_trans; [apply Rabs_triang | lra]).
  pose proof (within_rnd _ 860672 _ _ Hs1 HS1) as Hs1'.
  assert (Hs1r : within (2 * (1312 * E + / 4294967296) + / 4294967296)
                        (rnd (rnd (x * x) + rnd (y * y))) (X * X + Y * Y))
    by (eapply within_weaken; [apply Hs1'; lra | lra]).
  pose proof (within_add _ _ _ _ _ _ Hs1r Hzz) as Hs2.
  assert (HS2 : Rabs (X * X + Y * Y + Z * Z) <= 1291008)
    by (eapply Rle_trans; [apply Rabs_triang | lra]).
  pose proof (within_rnd _ 1291008 _ _ Hs2 HS2) as Hs2'.
  assert (Hsum : X * X + Y * Y + Z * Z = D * D).
  { unfold X, Y, Z.
    replace (D * cos el * cos az * (D * cos el * cos az)
             + - (D * cos el * sin az) * - (D * cos el * sin az)
             + D * sin el * (D * sin el))
      with (D * D * (cos el * cos el * (cos az * cos az + sin az * sin az)
                     + sin el * sin el)) by ring.
    rewrite (cos_sin_square az), Rmult_1_r, (cos_sin_square el). ring. }
  rewrite Hsum in Hs2'.
  set (s := rnd (rnd (rnd (x * x) + rnd (y * y)) + rnd (z * z))) in *.
  assert (Hs : Rabs (s - D * D) <= / 4294967296 * (19685 + 7872 * D)).
  { assert (H : within (/ 4294967296 * (19685 + 7872 * D)) s (D * D))
      by (eapply within_weaken; [apply Hs2'; lra | unfold E; lra]).
    exact H. }
  apply Rabs_bounds in Hs.
  assert (Hup : sqrt s <= D + 24 / 10000).
  { rewrite <- (sqrt_square (D + 24 / 10000)) by lra.
    apply sqrt_le_1_alt. nra. }
  assert (Hlo : D - 24 / 10000 <= sqrt s).
  { destruct Hstep as [H0 | H1].
    - pose proof (sqrt_pos s). lra.
    - rewrite <- (sqrt_square (D - 24 / 10000)) by lra.
      apply sqrt_le_1_alt. nra. }
  assert (Hn : Rabs (rnd (sqrt s) - sqrt s) <= / 4294967296).
  { apply Hrnd. apply Rabs_le. pose proof (sqrt_pos s). lra. }
  apply Rabs_bounds in Hn.
  change (norm_fl (rounded rnd fcos fsin) p) with (rnd (sqrt s)).
  apply Rabs_le. lra.
Qed.

Lemma usable_fl_rounded (n : R) :
  usable_fl (rounded rnd fcos fsin) n = true <-> 0.5 <= n <= 200.
Proof.
  unfold usable_fl. cbn [f_leb f_half f_of_Z rounded].
  rewrite andb_true_iff, !Rleb_true. reflexivity.
Qed.

(** What the filter does to a candidate, by its sample. *)
Lemma rounded_usable (u : Z) (az el : R) :
  (0 <= u < 65536)%Z ->
  let d := rnd (IZR u / 100) in
  let p := (rnd (rnd (d * fcos el) * fcos az),
            - rnd (rnd (d * fcos el) * fsin az),
            rnd (d * fsin el)) in
  let kept := usable_fl (rounded rnd fcos fsin) (norm_fl (rounded rnd fcos fsin) p) in
  ((51 <= u <= 19999)%Z -> kept = true) /\
  ((u <= 49 \/ 20001 <= u)%Z -> kept = false).
Proof.
  intros Hu d p kept.
  pose proof (rounded_norm_error u az el Hu) as Herr.
  cbv zeta in Herr. fold d in Herr. fold p in Herr.
  apply Rabs_bounds in Herr.
  split.
  - intros [H1 H2]. apply usable_fl_rounded.
    apply IZR_le in H1, H2. lra.
  - intros H. apply not_true_iff_false. unfold kept. rewrite usable_fl_rounded.
    destruct H as [H | H]; apply IZR_le in H; lra.
Qed.

End Rounding.

Section RoundedFilterClaims.
Local Open Scope R_scope.

(** C10, as amended. In float64 the norm of a candidate point equals
    the decoded range it was generated from only up to rounding.  Let the
    operations round in any way that stays within [2^-32] of the exact
    result on numbers up to [2^21], and [np.cos] and [np.sin] be any
    functions within [2^-32] of the cosine and sine, all of which float64
    and its library do: then the norm computed for the candidate of a
    sample [u], which is not negative, is within [1 / 400] of the range
    [u / 100].  So the range filter keeps every candidate whose sample lies
    between 51 and 19999, and drops every candidate whose sample is at most
    49 or at least 20001.  For the samples 50 and 20000, the ranges 0.5 and
    200 themselves, both outcomes are left open: rounding decides. *)
Theorem kept_by_range_up_to_rounding (rnd fcos fsin : R -> R)
    (azimuths elevations : list R) (binary_distances : list byte)
    (points : list point) :
  (forall x, Rabs x <= 2097152 -> Rabs (rnd x - x) <= / 4294967296) ->
  (forall x, Rabs (fcos x - cos x) <= / 4294967296) ->
  (forall x, Rabs (fsin x - sin x) <= / 4294967296) ->
  candidate_points_fl (rounded rnd fcos fsin) azimuths elevations binary_distances
  = Ok points ->
  exists kept,
    get_points_fl (rounded rnd fcos fsin) azimuths elevations binary_distances
    = Ok kept /\
    forall p, In p points ->
      exists u az el,
        In u (be_u2 binary_distances) /\ (0 <= u)%Z /\
        In az azimuths /\ In el elevations /\
        let d := rnd (IZR u / 100) in
        p = (rnd (rnd (d * fcos el) * fcos az),
             - rnd (rnd (d * fcos el) * fsin az),
             rnd (d * fsin el)) /\
        Rabs (norm_fl (rounded rnd fcos fsin) p - IZR u / 100) <= 1 / 400 /\
        ((51 <= u <= 19999)%Z -> In p kept) /\
        ((u <= 49 \/ 20001 <= u)%Z -> ~ In p kept).
Proof.
  intros Hrnd Hcos Hsin Hcand.
  exists (filter (fun p => usable_fl (rounded rnd fcos fsin)
                             (norm_fl (rounded rnd fcos fsin) p)) points).
  split; [rewrite get_points_fl_filter, Hcand; reflexivity |].
  intros p Hp. apply In_nth_error in Hp. destruct Hp as [k Hk].
  destruct (candidate_points_fl_nth _ _ _ _ _ _ _ Hcand Hk)
    as [u [az [el [Hu [Haz [Hel Heq]]]]]].
  cbv zeta in Heq. cbn [rounded f_mul f_div f_of_Z f_cos f_sin f_neg] in Heq.
  change (IZR 100) with 100 in Heq.
  apply nth_error_In in Hu.
  assert (Hrange : (0 <= u < 65536)%Z).
  { pose proof (be_u2_nonneg binary_distances) as Hall.
    rewrite Forall_forall in Hall. exact (Hall u Hu). }
  exists u, az, el. split; [exact Hu |]. split; [lia |].
  split; [exact Haz |]. split; [exact Hel |]. cbv zeta.
  split; [exact Heq |].
  pose proof (rounded_norm_error rnd fcos fsin Hrnd Hcos Hsin u az el Hrange) as Herr.
  destruct (rounded_usable rnd fcos fsin Hrnd Hcos Hsin u az el Hrange) as [Hin Hout].
  cbv zeta in Herr, Hin, Hout. rewrite <- Heq in Herr, Hin, Hout.
  split; [exact Herr |]. split.
  - intros H. apply filter_In. split; [eapply nth_error_In; exact Hk | exact (Hin H)].
  - intros H Hkept. apply filter_In in Hkept. destruct Hkept as [_ Hkept].
    rewrite (Hout H) in Hkept. discriminate.
Qed.

End RoundedFilterClaims.

Section RoundedExamples.
Local Open Scope R_scope.

Lemma candidate_points_fl_beam_fan :
  candidate_points_fl (rounded (fun x => x) cos sin)
                      (np_deg2rad [0]) (np_deg2rad VERTICAL_ANGLES_16) (samples_1000 16)
  = Ok beam_fan.
Proof.
  evaluate. f_equal.
  replace (1000 / 100) with 10 by lra. reflexivity.
Qed.

(** C10 as amended, with operations that do not round, on the candidates
    of the sample revolution. *)
Lemma kept_by_range_up_to_rounding_witness :
  exists kept,
    get_points_fl (rounded (fun x => x) cos sin)
                  (np_deg2rad [0]) (np_deg2rad VERTICAL_ANGLES_16) (samples_1000 16)
    = Ok kept /\
    forall p, In p beam_fan ->
      exists u az el,
        In u (be_u2 (samples_1000 16)) /\ (0 <= u)%Z /\
        In az (np_deg2rad [0]) /\ In el (np_deg2rad VERTICAL_ANGLES_16) /\
        let d := IZR u / 100 in
        p = (d * cos el * cos az, - (d * cos el * sin az), d * sin el) /\
        Rabs (norm_fl (rounded (fun x => x) cos sin) p - IZR u / 100) <= 1 / 400 /\
        ((51 <= u <= 19999)%Z -> In p kept) /\
        ((u <= 49 \/ 20001 <= u)%Z -> ~ In p kept).
Proof.
  apply (kept_by_range_up_to_rounding (fun x => x) cos sin
           (np_deg2rad [0]) (np_deg2rad VERTICAL_ANGLES_16) (samples_1000 16) beam_fan).
  - intros x _. replace (x - x) with 0 by ring. rewrite Rabs_R0. lra.
  - intros x. replace (cos x - cos x) with 0 by ring. rewrite Rabs_R0. lra.
  - intros x. replace (sin x - sin x) with 0 by ring. rewrite Rabs_R0. lra.
  - exact candidate_points_fl_beam_fan.
Defined.

(** C10, refuted as stated: in binary64, sixteen samples of 50 at azimuth
    0 decode to the range 0.5 exactly, which is inside the band, and give
    sixteen candidates of which [get_points] returns twelve; the candidate
    of the beam at -7 degrees has norm 0.49999999999999994 and is dropped.
    Sixteen samples of 20000 decode to the range 200 exactly and give
    sixteen candidates of which [get_points] returns eight; the candidate
    of the beam at -11 degrees has norm 200.00000000000003 and is dropped. *)
Lemma band_edge_candidates_dropped :
  let elevations := np_deg2rad_binary64 VERTICAL_ANGLES_16_binary64 in
  (be_u2 (samples_50 16) = repeat 50%Z 16 /\
   f_div binary64 (f_of_Z binary64 50) (f_of_Z binary64 100) = 0.5%float /\
   usable_fl binary64 0.5%float = true /\
   exists candidates kept p,
     candidate_points_fl binary64 [0%float] elevations (samples_50 16) = Ok candidates /\
     get_points_fl binary64 [0%float] elevations (samples_50 16) = Ok kept /\
     length candidates = 16%nat /\ length kept = 12%nat /\
     nth_error candidates 4 = Some p /\
     norm_fl binary64 p = 0x1.fffffffffffffp-2%float /\
     usable_fl binary64 (norm_fl binary64 p) = false) /\
  (be_u2 (samples_20000 16) = repeat 20000%Z 16 /\
   f_div binary64 (f_of_Z binary64 20000) (f_of_Z binary64 100) = 200%float /\
   usable_fl binary64 200%float = true /\
   exists candidates kept p,
     candidate_points_fl binary64 [0%float] elevations (samples_20000 16) = Ok candidates /\
     get_points_fl binary64 [0%float] elevations (samples_20000 16) = Ok kept /\
     length candidates = 16%nat /\ length kept = 8%nat /\
     nth_error candidates 2 = Some p /\
     norm_fl binary64 p = 0x1.9000000000001p+7%float /\
     usable_fl binary64 (norm_fl binary64 p) = false).
Proof.
  cbv zeta. split.
  - split; [reflexivity |]. split; [reflexivity |]. split; [reflexivity |].
    eexists. eexists. eexists.
    split; [vm_compute; reflexivity |]. split; [vm_compute; reflexivity |].
    split; [reflexivity |]. split; [reflexivity |]. split; [reflexivity |].
    split; vm_compute; reflexivity.
  - split; [reflexivity |]. split; [reflexivity |]. split; [reflexivity |].
    eexists. eexists. eexists.
    split; [vm_compute; reflexivity |]. split; [vm_compute; reflexivity |].
    split; [reflexivity |]. split; [reflexivity |]. split; [reflexivity |].
    split; vm_compute; reflexivity.
Qed.

End RoundedExamples.

(** ** The frame transformer *)

Section FrameTransformer.
Local Open Scope R_scope.

Lemma from_euler_zyx_zero (p : point) : from_euler_zyx 0 0 0 p = p.
Proof.
  destruct p as [[x y] z]. unfold from_euler_zyx, radians.
  replace (0 * (PI / 180)) with 0 by lra.
  unfold rot_z, rot_y, rot_x. rewrite cos_0, sin_0.
  f_equal; [f_equal |]; ring.
Qed.

Lemma map_from_euler_zyx_zero (points : list point) :
  map (from_euler_zyx 0 0 0) points = points.
Proof.
  induction points as [| p ps IH]; simpl; [reflexivity |].
  rewrite IH, from_euler_zyx_zero. reflexivity.
Qed.

(** C9. With mount offsets (0, 0, 0) and heading 0 the frame transformer
    returns every point of the cloud as it is, and the position passes
    through unchanged. *)
Theorem transform_zero_is_identity (pos : position) (points : list point) :
  transform_coords 0 0 0 (pos, 0, points) = (pos, points).
Proof.
  unfold transform_coords. replace (0 + 0) with 0 by lra.
  rewrite map_from_euler_zyx_zero. reflexivity.
Qed.

End FrameTransformer.

(** ** The decoder on sample revolutions *)

Section SampleRevolutions.
Local Open Scope R_scope.

Lemma accumulate_slice_0_0_16 :
  accumulate [slice_0_0_16] [] [] = Ok ([INR 0 * (0 - 0) + 0], samples_1000 16).
Proof. evaluate. reflexivity. Qed.

Lemma candidate_points_beam_fan :
  candidate_points (np_deg2rad [INR 0 * (0 - 0) + 0]) (np_deg2rad VERTICAL_ANGLES_16)
                   (samples_1000 16)
  = Ok beam_fan.
Proof.
  replace (INR 0 * (0 - 0) + 0) with 0 by (simpl; lra).
  evaluate. f_equal.
  replace (1000 / 100) with 10 by lra. reflexivity.
Qed.

Lemma beam_fan_norm : Forall (fun p => norm p = 10) beam_fan.
Proof.
  unfold beam_fan. apply Forall_forall. intros p Hp.
  apply in_map_iff in Hp. destruct Hp as [e [<- _]]. cbv zeta.
  rewrite norm_spherical. apply Rabs_pos_eq. lra.
Qed.

Lemma beam_fan_usable : filter (fun p => usable (norm p)) beam_fan = beam_fan.
Proof.
  apply forallb_filter_id. apply forallb_forall. intros p Hp.
  pose proof beam_fan_norm as H. rewrite Forall_forall in H.
  rewrite (H p Hp). apply usable_iff. lra.
Qed.

Lemma extractor_slice_0_0_16 :
  point_cloud_reading_extractor [slice_0_0_16] = Some beam_fan.
Proof.
  unfold point_cloud_reading_extractor, extract_points.
  rewrite accumulate_slice_0_0_16. cbn [bind].
  rewrite get_points_filter, candidate_points_beam_fan. cbn [bind].
  rewrite beam_fan_usable. reflexivity.
Qed.

(** C8. The revolution made of the single slice [slice_0_0_16] (azimuths
    0 to 0, 16 entries, 16 samples of 1000) decodes to exactly 16 points,
    one per entry of [VERTICAL_ANGLES_16] at azimuth 0, each at radius 10;
    none is filtered out, and the transform with mount offsets (0, 0, 0)
    and heading 0 returns the same points. *)
Theorem sample_revolution_decodes :
  be_u2 (distances slice_0_0_16) = repeat 1000%Z 16 /\
  (exists azimuths binary_distances,
      accumulate [slice_0_0_16] [] [] = Ok (azimuths, binary_distances) /\
      candidate_points (np_deg2rad azimuths) (np_deg2rad VERTICAL_ANGLES_16)
                       binary_distances = Ok beam_fan) /\
  point_cloud_reading_extractor [slice_0_0_16] = Some beam_fan /\
  length beam_fan = 16%nat /\
  Forall (fun p => norm p = 10 /\ usable (norm p) = true) beam_fan /\
  forall pos, transform_coords 0 0 0 (pos, 0, beam_fan) = (pos, beam_fan).
Proof.
  split; [reflexivity |].
  split; [exists [INR 0 * (0 - 0) + 0], (samples_1000 16);
          split; [exact accumulate_slice_0_0_16 | exact candidate_points_beam_fan] |].
  split; [exact extractor_slice_0_0_16 |].
  split; [reflexivity |].
  split.
  - eapply Forall_impl; [| exact beam_fan_norm].
    intros p Hp. split; [exact Hp |]. rewrite Hp. apply usable_iff. lra.
  - intros pos. unfold transform_coords. replace (0 + 0) with 0 by lra.
    rewrite map_from_euler_zyx_zero. reflexivity.
Qed.

(** The band of C5, on the cloud of the sample revolution. *)
Lemma point_cloud_within_band_witness :
  Forall (fun '(x, y, z) => 0.5 <= sqrt (x * x + y * y + z * z) <= 200) beam_fan.
Proof.
  apply (point_cloud_within_band [slice_0_0_16] beam_fan).
  exact extractor_slice_0_0_16.
Defined.

End SampleRevolutions.


(** ** The latest-value join *)

Section LatestJoin.

Lemma combined_run_nth (st : combine_latest) (pre : list sample) (x : sample)
    (post : list sample) :
  nth (length pre) (combined_run st (pre ++ x :: post)) None
  = snd (combined_update (combined_after st pre) x).
Proof.
  revert st. induction pre as [| y pre IH]; intros st; simpl.
  - destruct (combined_update st x) as [st' out]. reflexivity.
  - unfold combined_after. simpl.
    destruct (combined_update st y) as [st' out] eqn:E. simpl. apply IH.
Qed.

Lemma observed_snoc (u : upstream) (xs : list sample) (x : sample) :
  observed u (xs ++ [x]) = observed u xs || upstream_eqb (who x) u.
Proof.
  unfold observed. rewrite existsb_app. simpl. rewrite orb_false_r. reflexivity.
Qed.

(** The state of the join is determined by what has been observed. *)
Lemma combined_after_init (xs : list sample) :
  combined_after combined_init xs
  = {| last := (latest_position xs, latest_heading xs, latest_cloud xs);
       missing := filter (fun u => negb (observed u xs))
                         [pos_extractor; hdg_extractor; pcd_extractor] |}.
Proof.
  induction xs as [| x xs IH] using rev_ind; [reflexivity |].
  unfold combined_after, latest_position, latest_heading, latest_cloud in *.
  rewrite !fold_left_app. cbn [fold_left]. rewrite IH.
  cbn [filter]. rewrite !observed_snoc.
  destruct x as [p | h | c];
    destruct (observed pos_extractor xs), (observed hdg_extractor xs),
      (observed pcd_extractor xs); reflexivity.
Qed.

Lemma latest_position_observed (xs : list sample) :
  observed pos_extractor xs = true <-> exists p, latest_position xs = Some p.
Proof.
  induction xs as [| x xs IH] using rev_ind.
  - split; [discriminate | intros [p H]; discriminate].
  - rewrite observed_snoc. unfold latest_position in *. rewrite fold_left_app.
    destruct x as [p | h | c]; cbn.
    + rewrite orb_true_r. split; [eexists; reflexivity | reflexivity].
    + rewrite orb_false_r. exact IH.
    + rewrite orb_false_r. exact IH.
Qed.

Lemma latest_heading_observed (xs : list sample) :
  observed hdg_extractor xs = true <-> exists h, latest_heading xs = Some h.
Proof.
  induction xs as [| x xs IH] using rev_ind.
  - split; [discriminate | intros [p H]; discriminate].
  - rewrite observed_snoc. unfold latest_heading in *. rewrite fold_left_app.
    destruct x as [p | h | c]; cbn.
    + rewrite orb_false_r. exact IH.
    + rewrite orb_true_r. split; [eexists; reflexivity | reflexivity].
    + rewrite orb_false_r. exact IH.
Qed.

(** C4. Whatever has arrived before ([pre]) and whatever arrives after
    ([post]): a position or a heading makes the join emit nothing; a point
    cloud makes it emit nothing as long as no position or no heading has
    been observed; once both have been, every point cloud makes it emit the
    frame of the newest position, the newest heading and that cloud. *)
Theorem latest_join_gating (pre : list sample) (x : sample) (post : list sample) :
  let out := nth (length pre) (combined_run combined_init (pre ++ x :: post)) None in
  match x with
  | PointCloud points =>
      if observed pos_extractor pre && observed hdg_extractor pre
      then exists p h,
          latest_position pre = Some p /\ latest_heading pre = Some h /\
          out = Some (Some p, Some h, Some points)
      else out = None
  | Position _ | Heading _ => out = None
  end.
Proof.
  cbv zeta. rewrite combined_run_nth, combined_after_init.
  unfold combined_update. cbn [missing last filter who].
  destruct x as [p | h | c].
  - destruct (observed pos_extractor pre), (observed hdg_extractor pre),
      (observed pcd_extractor pre); reflexivity.
  - destruct (observed pos_extractor pre), (observed hdg_extractor pre),
      (observed pcd_extractor pre); reflexivity.
  - destruct (observed pos_extractor pre) eqn:Hp, (observed hdg_extractor pre) eqn:Hh;
      cbn [andb];
      try (destruct (observed pcd_extractor pre); reflexivity).
    apply latest_position_observed in Hp. apply latest_heading_observed in Hh.
    destruct Hp as [p Hp], Hh as [h Hh]. exists p, h.
    rewrite Hp, Hh. split; [reflexivity | split; [reflexivity |]].
    destruct (observed pcd_extractor pre); reflexivity.
Qed.

End LatestJoin.

(** ** The revolution decoder: when decoding can succeed *)

Section DecoderShape.
Local Open Scope R_scope.

Lemma np_linspace_length (start stop : R) (num : Z) (l : list R) :
  np_linspace start stop num = Ok l -> (0 <= num)%Z /\ length l = Z.to_nat num.
Proof.
  unfold np_linspace. destruct (Z.ltb_spec num 0) as [Hneg | Hpos]; [discriminate |].
  intros [= <-]. split; [exact Hpos |].
  assert (Hy : forall f g : R -> R,
             length (map f (map g (map INR (seq 0 (Z.to_nat num))))) = Z.to_nat num)
    by (intros f g; rewrite !length_map, length_seq; reflexivity).
  destruct (Z.ltb_spec 1 num) as [Hbig | Hsmall].
  - unfold set_last. rewrite length_app, removelast_firstn_len, length_firstn.
    cbn [length]. destruct (0 <? num - 1)%Z; rewrite Hy; lia.
  - destruct (0 <? num - 1)%Z; apply Hy.
Qed.

Lemma cartesian_points_shape (azimuths elevations distances : list R)
    (points : list point) :
  cartesian_points azimuths elevations distances = Ok points ->
  let m := (length azimuths * length elevations)%nat in
  (length distances = m \/ length distances = 1 \/ m = 1)%nat /\
  length points = (if Nat.eqb (length distances) 1 then m else length distances).
Proof.
  unfold cartesian_points, sph2cart.
  change (np_meshgrid elevations azimuths)
    with (fst (np_meshgrid elevations azimuths), snd (np_meshgrid elevations azimuths)).
  cbv beta iota.
  set (els := flatten (fst (np_meshgrid elevations azimuths))).
  set (azs := flatten (snd (np_meshgrid elevations azimuths))).
  assert (Hels : length els = (length azimuths * length elevations)%nat)
    by apply length_flatten_els.
  assert (Hazs : length azs = (length azimuths * length elevations)%nat)
    by apply length_flatten_azs.
  destruct (np_multiply distances (np_cos els)) as [dc | e] eqn:Hdc; cbn [bind];
    [| discriminate].
  destruct (np_multiply dc (np_cos azs)) as [xs | e] eqn:Hxs; cbn [bind];
    [| discriminate].
  destruct (np_multiply dc (np_sin azs)) as [ys | e] eqn:Hys; cbn [bind];
    [| discriminate].
  destruct (np_multiply distances (np_sin els)) as [zs | e] eqn:Hzs; cbn [bind];
    [| discriminate].
  unfold np_column_stack, np_negative.
  destruct (Nat.eqb (length xs) (length (map Ropp ys))
            && Nat.eqb (length (map Ropp ys)) (length zs)) eqn:Hst; [| discriminate].
  intros [= <-]. cbv zeta.
  apply andb_true_iff in Hst. destruct Hst as [Hxy Hyz].
  apply Nat.eqb_eq in Hxy, Hyz.
  rewrite (length_zip3 _ _ _ Hxy Hyz).
  destruct (np_multiply_shape _ _ _ Hdc) as [Sdc Ldc].
  destruct (np_multiply_shape _ _ _ Hxs) as [Sxs Lxs].
  unfold np_cos in *. rewrite !length_map in *.
  rewrite Hels in *. rewrite Hazs in *.
  split; [exact Sdc |].
  revert Ldc Lxs.
  destruct (Nat.eqb_spec (length dc) 1), (Nat.eqb_spec (length distances) 1);
    intros Ldc Lxs; lia.
Qed.

(** What the loop accumulates: all the bytes, in order. *)
Lemma accumulate_bytes (envelopes : list PointCloudReading) (azs : list R)
    (bin : list byte) (azs' : list R) (bin' : list byte) :
  accumulate envelopes azs bin = Ok (azs', bin') ->
  bin' = bin ++ concat (map distances envelopes).
Proof.
  revert azs bin. induction envelopes as [| msg rest IH]; intros azs bin; cbn [accumulate].
  - intros [= _ <-]. simpl. rewrite app_nil_r. reflexivity.
  - destruct (distances msg) as [| b bs] eqn:Hd; cbn [is_empty].
    + intros H. apply IH in H. cbn [map concat]. rewrite Hd. exact H.
    + destruct (get_number_of_azimuths _ _) as [q | e]; cbn [bind]; [| discriminate].
      destruct (np_linspace _ _ _) as [l | e]; cbn [bind]; [| discriminate].
      intros H. apply IH in H. cbn [map concat]. rewrite Hd, H, <- app_assoc.
      reflexivity.
Qed.

(** A cloud comes out only if the accumulated bytes are even in number and
    the samples fit the grid of azimuths and beams, or there is a single
    sample. *)
Lemma extractor_some_shape (envelopes : list PointCloudReading) (points : list point) :
  point_cloud_reading_extractor envelopes = Some points ->
  exists azs bin,
    accumulate envelopes [] [] = Ok (azs, bin) /\
    bin = concat (map distances envelopes) /\
    Nat.even (length bin) = true /\
    azs <> [] /\
    (length bin = 2 * (length azs * 16) \/ length bin = 2)%nat.
Proof.
  intros H. apply extractor_get_points in H.
  destruct H as [Hne [azs [bin [Hacc Hget]]]].
  exists azs, bin. split; [exact Hacc |].
  split; [exact (accumulate_bytes _ _ _ _ _ Hacc) |].
  rewrite get_points_filter in Hget.
  destruct (candidate_points _ _ bin) as [cands | e] eqn:Hcand; cbn [bind] in Hget;
    [| discriminate].
  injection Hget as <-.
  assert (Hc : cands <> []) by (intros ->; apply Hne; reflexivity).
  unfold candidate_points, decode_distances, np_frombuffer_u2 in Hcand.
  destruct (Nat.even (length bin)) eqn:Heven; cbn [bind] in Hcand; [| discriminate].
  split; [reflexivity |].
  apply cartesian_points_shape in Hcand. cbv zeta in Hcand.
  destruct Hcand as [Hshape Hsize].
  unfold np_deg2rad in Hshape, Hsize. rewrite !length_map in Hshape, Hsize.
  change (length VERTICAL_ANGLES_16) with 16%nat in Hshape, Hsize.
  apply Nat.even_spec in Heven. destruct Heven as [n Hn].
  rewrite (length_be_u2 n bin Hn) in Hshape, Hsize.
  assert (Hlen : length cands <> 0%nat) by (destruct cands; [congruence | discriminate]).
  split.
  - intros ->. simpl in Hshape, Hsize. revert Hsize.
    destruct (Nat.eqb_spec n 1); lia.
  - lia.
Qed.

End DecoderShape.

(** ** The revolution decoder: azimuth counts that are not integers *)

Section AzimuthCount.

Lemma python_int_quotient (binary_distances : list byte) (entries : positive) :
  python_int (get_number_of_points binary_distances / inject_Z (Zpos entries))
  = (Z.of_nat (length binary_distances) / Zpos (2 * entries))%Z.
Proof.
  unfold python_int, get_number_of_points, Qdiv, Qmult, Qinv, inject_Z.
  cbn [Qnum Qden]. rewrite !Z.mul_1_r.
  change (1 * 2 * entries)%positive with (2 * entries)%positive.
  apply Z.quot_div_nonneg; lia.
Qed.

Lemma integral_quotient (binary_distances : list byte) (entries : positive) :
  (Z.of_nat (length binary_distances) mod Zpos (2 * entries) = 0)%Z ->
  (get_number_of_points binary_distances / inject_Z (Zpos entries)
   == inject_Z (Z.of_nat (length binary_distances) / Zpos (2 * entries)))%Q.
Proof.
  intros H. unfold get_number_of_points, Qdiv, Qmult, Qinv, inject_Z, Qeq.
  cbn [Qnum Qden]. rewrite !Z.mul_1_r.
  change (1 * 2 * entries)%positive with (2 * entries)%positive.
  rewrite Z.mul_comm. apply Z.div_exact; [lia | exact H].
Qed.

(** The loop appends [azimuth_count msg] azimuths for each slice. *)
Lemma accumulate_azimuths (envelopes : list PointCloudReading) (azs : list R)
    (bin : list byte) (azs' : list R) (bin' : list byte) :
  accumulate envelopes azs bin = Ok (azs', bin') ->
  length azs' = (length azs + list_sum (map azimuth_count envelopes))%nat.
Proof.
  revert azs bin. induction envelopes as [| msg rest IH]; intros azs bin;
    cbn [accumulate map].
  - intros [= <- _]. simpl. lia.
  - replace (list_sum (azimuth_count msg :: map azimuth_count rest))
      with (azimuth_count msg + list_sum (map azimuth_count rest))%nat by reflexivity.
    unfold azimuth_count at 1.
    destruct (is_empty (distances msg)).
    + intros H. apply IH in H. rewrite H. reflexivity.
    + unfold get_number_of_azimuths.
      destruct (entriesPerAzimuth msg =? 0)%Z; cbn [bind]; [discriminate |].
      destruct (np_linspace _ _ _) as [l | e] eqn:Hl; cbn [bind]; [| discriminate].
      apply np_linspace_length in Hl. destruct Hl as [_ Hl].
      intros H. apply IH in H. rewrite H, length_app, Hl. lia.
Qed.

(** A slice that announces at least 16 entries per azimuth brings at least
    16 samples for each of its azimuths, and more if its quotient is not an
    integer. *)
Lemma azimuth_count_bound (msg : PointCloudReading) :
  distances msg <> [] -> (16 <= entriesPerAzimuth msg)%Z ->
  (32 * azimuth_count msg <= length (distances msg))%nat /\
  ((forall z : Z,
       ~ (get_number_of_points (distances msg) / inject_Z (entriesPerAzimuth msg)
          == inject_Z z)%Q) ->
   (32 * azimuth_count msg < length (distances msg))%nat).
Proof.
  intros Hne He. unfold azimuth_count.
  destruct (distances msg) as [| b bs] eqn:Hd; [congruence |]. cbn [is_empty].
  destruct (entriesPerAzimuth msg) as [| e | e]; try lia.
  rewrite python_int_quotient.
  set (len := Z.of_nat (length (b :: bs))).
  assert (Hlen : (0 <= len)%Z) by (unfold len; lia).
  assert (Hpos : (0 < Z.pos (2 * e))%Z) by lia.
  pose proof (Z.div_mod len (Z.pos (2 * e)) ltac:(lia)) as Hdm.
  pose proof (Z.mod_pos_bound len (Z.pos (2 * e)) Hpos) as Hmod.
  pose proof (Z.div_pos len (Z.pos (2 * e)) Hlen Hpos) as Hq.
  assert (H32 : (32 * (len / Z.pos (2 * e)) <= Z.pos (2 * e) * (len / Z.pos (2 * e)))%Z)
    by (apply Z.mul_le_mono_nonneg_r; lia).
  split.
  - apply Nat2Z.inj_le. rewrite Nat2Z.inj_mul, Z2Nat.id by exact Hq.
    fold len. change (Z.of_nat 32) with 32%Z. lia.
  - intros Hnon.
    assert (Hrem : (len mod Z.pos (2 * e) <> 0)%Z).
    { intros H0. apply (Hnon (len / Z.pos (2 * e))%Z).
      apply integral_quotient. exact H0. }
    apply Nat2Z.inj_lt. rewrite Nat2Z.inj_mul, Z2Nat.id by exact Hq.
    fold len. change (Z.of_nat 32) with 32%Z. lia.
Qed.

Lemma azimuth_count_empty (msg : PointCloudReading) :
  distances msg = [] -> azimuth_count msg = 0%nat.
Proof. intros H. unfold azimuth_count. rewrite H. reflexivity. Qed.

Lemma sum_of_counts (envelopes : list PointCloudReading) :
  (forall m, In m envelopes -> distances m <> [] -> (16 <= entriesPerAzimuth m)%Z) ->
  (32 * list_sum (map azimuth_count envelopes)
   <= length (concat (map distances envelopes)))%nat.
Proof.
  induction envelopes as [| msg rest IH]; intros H16; cbn [map concat];
    [simpl; lia |].
  unfold list_sum in *. cbn [fold_right]. rewrite length_app.
  assert (IH' := IH (fun m Hm => H16 m (or_intror Hm))).
  destruct (distances msg) as [| b bs] eqn:Hd.
  - rewrite (azimuth_count_empty msg Hd). simpl. lia.
  - assert (Hne : distances msg <> []) by (rewrite Hd; discriminate).
    destruct (azimuth_count_bound msg Hne (H16 msg (or_introl eq_refl) Hne)) as [Hb _].
    rewrite Hd in Hb. lia.
Qed.

Lemma sum_of_counts_strict (envelopes : list PointCloudReading)
    (msg : PointCloudReading) :
  (forall m, In m envelopes -> distances m <> [] -> (16 <= entriesPerAzimuth m)%Z) ->
  In msg envelopes -> distances msg <> [] ->
  (forall z : Z,
      ~ (get_number_of_points (distances msg) / inject_Z (entriesPerAzimuth msg)
         == inject_Z z)%Q) ->
  (32 * list_sum (map azimuth_count envelopes)
   < length (concat (map distances envelopes)))%nat.
Proof.
  induction envelopes as [| m rest IH]; intros H16 Hin Hne Hnon; [contradiction |].
  cbn [map concat]. unfold list_sum in *. cbn [fold_right]. rewrite length_app.
  assert (H16' : forall m', In m' rest -> distances m' <> [] ->
                            (16 <= entriesPerAzimuth m')%Z)
    by (intros m' Hm'; apply H16; right; exact Hm').
  destruct Hin as [-> | Hin].
  - pose proof (sum_of_counts rest H16') as Hrest. unfold list_sum in Hrest.
    destruct (azimuth_count_bound msg Hne (H16 msg (or_introl eq_refl) Hne)) as [_ Hs].
    specialize (Hs Hnon). lia.
  - specialize (IH H16' Hin Hne Hnon).
    destruct (distances m) as [| b bs] eqn:Hd.
    + rewrite (azimuth_count_empty m Hd). simpl. lia.
    + assert (Hne' : distances m <> []) by (rewrite Hd; discriminate).
      destruct (azimuth_count_bound m Hne' (H16 m (or_introl eq_refl) Hne')) as [Hb _].
      rewrite Hd in Hb. lia.
Qed.

End AzimuthCount.

(** ** The revolution decoder: errors *)

Section DecoderErrors.

(** C2, as amended. A quotient [n_points / entries_per_slice] that is not
    an integer is truncated by [int], it is no error in itself.  When every
    non-empty slice of the revolution announces at least 16 entries per
    azimuth, the number of beams, and the quotient of one of them is not an
    integer, the revolution yields no point cloud. *)
Theorem non_integral_count_yields_nothing (envelopes : list PointCloudReading)
    (msg : PointCloudReading) (n_azimuths : Q) :
  (forall m, In m envelopes -> distances m <> [] -> (16 <= entriesPerAzimuth m)%Z) ->
  In msg envelopes -> distances msg <> [] ->
  get_number_of_azimuths (get_number_of_points (distances msg)) (entriesPerAzimuth msg)
  = Ok n_azimuths ->
  (forall z : Z, ~ n_azimuths == inject_Z z) ->
  point_cloud_reading_extractor envelopes = None.
Proof.
  intros H16 Hin Hne Hq Hnon.
  unfold get_number_of_azimuths in Hq.
  destruct (entriesPerAzimuth msg =? 0)%Z; [discriminate |]. injection Hq as <-.
  destruct (point_cloud_reading_extractor envelopes) as [points |] eqn:Hex;
    [exfalso | reflexivity].
  apply extractor_some_shape in Hex.
  destruct Hex as [azs [bin [Hacc [Hbin [_ [Hazs Hshape]]]]]].
  pose proof (accumulate_azimuths _ _ _ _ _ Hacc) as Hcount.
  cbn [length] in Hcount.
  pose proof (sum_of_counts_strict _ _ H16 Hin Hne Hnon) as Hstrict.
  rewrite <- Hbin in Hstrict.
  assert (Hpos : (0 < length azs)%nat) by (destruct azs; [congruence | simpl; lia]).
  lia.
Qed.

(** Eight samples announced as columns of sixteen. *)
Lemma non_integral_count_yields_nothing_witness :
  point_cloud_reading_extractor [slice_half; slice_empty] = None.
Proof.
  apply (non_integral_count_yields_nothing [slice_half; slice_empty] slice_half
           (get_number_of_points (distances slice_half) / inject_Z 16)).
  - intros m [<- | [<- | []]] _; simpl; lia.
  - left. reflexivity.
  - discriminate.
  - reflexivity.
  - intros z H. unfold Qeq in H. simpl in H. lia.
Defined.

Lemma extractor_beam_fan (envelopes : list PointCloudReading) :
  accumulate envelopes [] [] = Ok ([INR 0 * (0 - 0) + 0]%R, samples_1000 16) ->
  point_cloud_reading_extractor envelopes = Some beam_fan.
Proof.
  intros H. unfold point_cloud_reading_extractor, extract_points.
  rewrite H. cbn [bind].
  rewrite get_points_filter, candidate_points_beam_fan. cbn [bind].
  rewrite beam_fan_usable. reflexivity.
Qed.

(** C2, refuted as stated: 16 samples announced as columns of 10 give the
    quotient 1.6, and the revolution is decoded into the 16 points of
    [beam_fan]. *)
Lemma non_integral_count_decodes :
  distances slice_0_0_10 <> [] /\
  (exists n_azimuths,
      get_number_of_azimuths (get_number_of_points (distances slice_0_0_10))
                             (entriesPerAzimuth slice_0_0_10) = Ok n_azimuths /\
      n_azimuths == 1.6 /\
      forall z : Z, ~ n_azimuths == inject_Z z) /\
  point_cloud_reading_extractor [slice_0_0_10; slice_empty] = Some beam_fan.
Proof.
  split; [discriminate |]. split.
  - eexists. split; [reflexivity |]. split; [reflexivity |].
    intros z H. unfold Qeq in H. simpl in H. lia.
  - apply extractor_beam_fan. evaluate. reflexivity.
Qed.

Lemma accumulate_no_zero_entries (envelopes : list PointCloudReading) (azs : list R)
    (bin : list byte) (out : list R * list byte) (msg : PointCloudReading) :
  accumulate envelopes azs bin = Ok out ->
  In msg envelopes -> distances msg <> [] -> entriesPerAzimuth msg <> 0%Z.
Proof.
  revert azs bin. induction envelopes as [| m rest IH]; intros azs bin Hacc Hin Hne;
    [contradiction |].
  cbn [accumulate] in Hacc.
  destruct Hin as [-> | Hin].
  - destruct (distances msg) as [| b bs]; [congruence |]. cbn [is_empty] in Hacc.
    unfold get_number_of_azimuths in Hacc.
    destruct (Z.eqb_spec (entriesPerAzimuth msg) 0) as [E | E]; [discriminate | exact E].
  - destruct (is_empty (distances m)); [exact (IH _ _ Hacc Hin Hne) |].
    destruct (get_number_of_azimuths _ _) as [q | e]; cbn [bind] in Hacc;
      [| discriminate].
    destruct (np_linspace _ _ _) as [l | e]; cbn [bind] in Hacc; [| discriminate].
    exact (IH _ _ Hacc Hin Hne).
Qed.

Lemma undecodable_none (revolution : list PointCloudReading) :
  undecodable revolution -> point_cloud_reading_extractor revolution = None.
Proof.
  intros Hbad.
  destruct (point_cloud_reading_extractor revolution) as [points |] eqn:Hex;
    [exfalso | reflexivity].
  apply extractor_some_shape in Hex.
  destruct Hex as [azs [bin [Hacc [Hbin [Heven [_ Hshape]]]]]].
  destruct Hbad as [[msg [Hin [Hne Hzero]]] | [Hodd | [azs' [bin' [Hacc' [H1 H2]]]]]].
  - exact (accumulate_no_zero_entries _ _ _ _ _ Hacc Hin Hne Hzero).
  - rewrite <- Hbin, <- Nat.negb_even, Heven in Hodd. discriminate.
  - rewrite Hacc in Hacc'. injection Hacc' as <- <-. lia.
Qed.

(** *** One revolution at a time *)

Lemma decoder_run_fill (n : nat) (chunk buffer rest : list PointCloudReading) :
  chunk <> [] -> (length buffer + length chunk = n)%nat ->
  decoder_run n buffer (chunk ++ rest)
  = emitted (buffer ++ chunk) ++ decoder_run n [] rest.
Proof.
  revert buffer. induction chunk as [| x chunk IH]; intros buffer Hne Hlen;
    [congruence |].
  cbn [app decoder_run]. unfold decoder_update, partition_update.
  rewrite length_app. cbn [length] in *.
  destruct chunk as [| y chunk]; cbn [length] in Hlen.
  - replace (Nat.eqb (length buffer + 1) n) with true
      by (symmetry; apply Nat.eqb_eq; lia).
    unfold emitted. cbn [app].
    destruct (point_cloud_reading_extractor (buffer ++ [x])); reflexivity.
  - replace (Nat.eqb (length buffer + 1) n) with false
      by (symmetry; apply Nat.eqb_neq; lia).
    rewrite (IH (buffer ++ [x])).
    + rewrite <- app_assoc. reflexivity.
    + discriminate.
    + rewrite length_app. cbn [length] in *. lia.
Qed.

Lemma decoder_run_revolution (n : nat) (revolution rest : list PointCloudReading) :
  (0 < n)%nat -> length revolution = n ->
  decoder_run n [] (revolution ++ rest) = emitted revolution ++ decoder_run n [] rest.
Proof.
  intros Hn Hlen. apply (decoder_run_fill n revolution []).
  - intros ->. simpl in Hlen. lia.
  - exact Hlen.
Qed.

Lemma decoder_run_aligned (n k : nat) (pre rest : list PointCloudReading) :
  (0 < n)%nat -> length pre = (k * n)%nat ->
  decoder_run n [] (pre ++ rest) = decoder_run n [] pre ++ decoder_run n [] rest.
Proof.
  intros Hn. revert pre. induction k as [| k IH]; intros pre Hlen.
  - destruct pre; [reflexivity | simpl in Hlen; lia].
  - rewrite <- (firstn_skipn n pre), <- app_assoc.
    assert (Hfirst : length (firstn n pre) = n)
      by (rewrite length_firstn; simpl in Hlen; lia).
    assert (Hskip : length (skipn n pre) = (k * n)%nat)
      by (rewrite length_skipn; simpl in Hlen; lia).
    rewrite !(decoder_run_revolution n (firstn n pre)) by assumption.
    rewrite (IH _ Hskip), app_assoc. reflexivity.
Qed.

(** C6, as amended. Nothing is raised out of the decoder, and nothing is
    kept from one revolution to the next: a revolution that cannot be
    decoded (a non-empty slice with 0 entries per azimuth, an odd
    number of bytes over the whole revolution, or samples that are neither
    one per azimuth and beam nor a single one) yields nothing, and what the
    decoder emits for the revolutions before and after it is what it emits
    without it. *)
Theorem decode_failure_is_contained (n k : nat)
    (pre bad post : list PointCloudReading) :
  (0 < n)%nat -> length pre = (k * n)%nat -> length bad = n ->
  undecodable bad ->
  point_cloud_reading_extractor bad = None /\
  decoder_run n [] (pre ++ bad ++ post) = decoder_run n [] (pre ++ post).
Proof.
  intros Hn Hpre Hbad Hund.
  pose proof (undecodable_none bad Hund) as Hnone.
  split; [exact Hnone |].
  rewrite !(decoder_run_aligned n k pre) by assumption.
  rewrite (decoder_run_revolution n bad post Hn Hbad).
  unfold emitted. rewrite Hnone. reflexivity.
Qed.

(** Three stray bytes in one revolution, the sample slice in the next. *)
Lemma decode_failure_is_contained_witness :
  point_cloud_reading_extractor [slice_3_bytes; slice_empty] = None /\
  decoder_run CLUON_ENVELOPES_PER_REVOLUTION []
    ([] ++ [slice_3_bytes; slice_empty] ++ [slice_0_0_16; slice_empty])
  = decoder_run CLUON_ENVELOPES_PER_REVOLUTION [] ([] ++ [slice_0_0_16; slice_empty]).
Proof.
  apply (decode_failure_is_contained 2 0 [] [slice_3_bytes; slice_empty]
           [slice_0_0_16; slice_empty]).
  - lia.
  - reflexivity.
  - reflexivity.
  - right. left. reflexivity.
Defined.

(** C6, refuted as stated: two slices with an odd number of bytes each (1
    and 31), whose quotients are not integers, make a revolution that is
    decoded into the 16 points of [beam_fan]. *)
Lemma odd_slices_decode :
  Nat.odd (length (distances slice_odd_head)) = true /\
  Nat.odd (length (distances slice_odd_tail)) = true /\
  point_cloud_reading_extractor [slice_odd_head; slice_odd_tail] = Some beam_fan /\
  decoder_run CLUON_ENVELOPES_PER_REVOLUTION [] [slice_odd_head; slice_odd_tail]
  = [beam_fan].
Proof.
  assert (H : point_cloud_reading_extractor [slice_odd_head; slice_odd_tail]
              = Some beam_fan)
    by (apply extractor_beam_fan; evaluate; reflexivity).
  split; [reflexivity |]. split; [reflexivity |]. split; [exact H |].
  cbn [decoder_run decoder_update partition_update CLUON_ENVELOPES_PER_REVOLUTION
       app length Nat.eqb].
  rewrite H. reflexivity.
Qed.

End DecoderErrors.

(** ** The rate limiter *)

Section RateLimiter.
Context {A : Type}.
Local Open Scope Q_scope.

Lemma Qltb_true (a b : Q) : Qltb a b = true <-> a < b.
Proof.
  unfold Qltb. rewrite negb_true_iff, <- not_true_iff_false, Qle_bool_iff.
  split; [apply Qnot_le_lt | apply Qlt_not_le].
Qed.

Lemma Qltb_false (a b : Q) : Qltb a b = false <-> b <= a.
Proof.
  unfold Qltb. rewrite negb_false_iff. apply Qle_bool_iff.
Qed.

(** [rate_limit.update] emits at the later of [now] and [self.next], and
    moves [self.next] one interval past that instant. *)
Lemma rate_limit_update_spec (interval next now : Q) :
  let '(next', emitted_at) := rate_limit_update interval next now in
  emitted_at == Qmax now next /\ next' == emitted_at + interval.
Proof.
  unfold rate_limit_update.
  destruct (Qltb now next) eqn:E.
  - apply Qltb_true in E.
    assert (H : Qmax now next == next) by (apply Q.max_r; lra).
    rewrite H. split; lra.
  - apply Qltb_false in E.
    assert (H : Qmax now next == now) by (apply Q.max_l; exact E).
    rewrite H. split; lra.
Qed.

Lemma spaced_from_earlier (interval from from' : Q) (instants : list Q) :
  from' <= from -> spaced_from interval from instants ->
  spaced_from interval from' instants.
Proof.
  destruct instants as [| t rest]; [trivial |].
  intros Hle [Ht Hrest]. split; [lra | exact Hrest].
Qed.

(** Whatever arrives and whenever, two emissions of the limiter are at
    least one interval apart. *)
Lemma limiter_run_spaced (interval : Q) (arrivals : list (Q * A)) (st : limiter) :
  spaced_from interval (rate_next st)
              (map fst (snd (limiter_run interval st arrivals))).
Proof.
  revert st. induction arrivals as [| [now x] rest IH]; intros st; [exact I |].
  cbn [limiter_run]. unfold limiter_update.
  destruct (Qle_bool (cb_resumes st) now).
  - pose proof (rate_limit_update_spec interval (rate_next st) now) as Hspec.
    destruct (rate_limit_update interval (rate_next st) now) as [next' e].
    destruct Hspec as [He Hnext].
    set (st' := {| latest_next := [x]; cb_resumes := e; rate_next := next' |}).
    specialize (IH st').
    destruct (limiter_run interval st' rest) as [st'' outs].
    cbn [snd map app fst spaced_from] in *. split.
    + rewrite He. apply Q.le_max_r.
    + apply (spaced_from_earlier interval next'); [lra | exact IH].
  - set (st' := {| latest_next := [x]; cb_resumes := cb_resumes st;
                   rate_next := rate_next st |}).
    specialize (IH st').
    destruct (limiter_run interval st' rest) as [st'' outs].
    cbn [snd map app fst] in *. exact IH.
Qed.

Lemma emitted_in_window_count (a T : Q) (emissions : list (Q * A)) :
  emitted_in_window a T emissions = count_in a T (map fst emissions).
Proof.
  unfold emitted_in_window, count_in.
  induction emissions as [| em rest IH]; [reflexivity |].
  cbn [filter map]. destruct (in_window a T (fst em)); cbn [length]; rewrite IH;
    reflexivity.
Qed.

Lemma in_window_iff (a T e : Q) : in_window a T e = true <-> a <= e /\ e <= a + T.
Proof.
  unfold in_window. rewrite andb_true_iff, !Qle_bool_iff. reflexivity.
Qed.

Lemma count_in_spaced (interval a T : Q) (instants : list Q) (from : Q) :
  0 <= interval -> spaced_from interval from instants ->
  count_in a T instants = 0%nat \/
  (inject_Z (Z.of_nat (count_in a T instants)) - 1) * interval <= a + T - from /\
  (inject_Z (Z.of_nat (count_in a T instants)) - 1) * interval <= T.
Proof.
  intros Hi. revert from.
  induction instants as [| t rest IH]; intros from Hsp; [left; reflexivity |].
  destruct Hsp as [Hfrom Hrest]. specialize (IH _ Hrest).
  unfold count_in in *. cbn [filter].
  destruct (in_window a T t) eqn:Hin.
  - right. apply in_window_iff in Hin. cbn [length].
    rewrite Nat2Z.inj_succ, <- Z.add_1_r, inject_Z_plus.
    destruct IH as [-> | [IH1 IH2]].
    + change (inject_Z (Z.of_nat 0)) with 0. change (inject_Z 1) with 1. split; lra.
    + change (inject_Z 1) with 1. split; lra.
  - destruct IH as [IH | [IH1 IH2]]; [left; exact IH | right].
    split; [lra | exact IH2].
Qed.

(** While [cb] is inside [rate_limit.update], nothing that arrives is
    emitted: the notifications of [latest.update] wake nobody, and only
    [latest.next] changes. *)
Lemma limiter_run_busy (interval : Q) (arrivals : list (Q * A)) (st : limiter) :
  Forall (fun a => fst a < cb_resumes st) arrivals ->
  snd (limiter_run interval st arrivals) = [].
Proof.
  revert st. induction arrivals as [| [now x] rest IH]; intros st Hall; [reflexivity |].
  inversion Hall as [| a l Hnow Hrest]; subst. cbn [fst] in Hnow.
  cbn [limiter_run]. unfold limiter_update.
  replace (Qle_bool (cb_resumes st) now) with false
    by (symmetry; apply not_true_iff_false; rewrite Qle_bool_iff;
        apply Qlt_not_le; exact Hnow).
  specialize (IH {| latest_next := [x]; cb_resumes := cb_resumes st;
                    rate_next := rate_next st |} Hrest).
  destruct (limiter_run interval _ rest) as [st'' outs].
  cbn [snd app] in *. exact IH.
Qed.

(** C3, as amended. [rate_limit(0.5)] keeps two emissions at least 0.5
    seconds apart, which allows 2 frames per second: in any window of
    length [T] at most [ceil (T * 2) + 1] frames are emitted. *)
Theorem rate_limit_window_bound (arrivals : list (Q * A)) (a T : Q) :
  0 <= T ->
  / RATE_LIMIT_INTERVAL == 2 /\
  spaced_from RATE_LIMIT_INTERVAL 0 (map fst (pcd_limiter_run arrivals)) /\
  (Z.of_nat (emitted_in_window a T (pcd_limiter_run arrivals))
   <= Qceiling (T * 2) + 1)%Z.
Proof.
  intros HT. split; [reflexivity |].
  pose proof (limiter_run_spaced RATE_LIMIT_INTERVAL arrivals limiter_init) as Hsp.
  change (rate_next limiter_init) with 0 in Hsp.
  split; [exact Hsp |].
  rewrite emitted_in_window_count. unfold pcd_limiter_run.
  set (instants := map fst (snd (limiter_run RATE_LIMIT_INTERVAL limiter_init arrivals)))
    in *.
  pose proof (Qle_ceiling (T * 2)) as Hceil.
  assert (Hhalf : 0 <= RATE_LIMIT_INTERVAL) by (unfold RATE_LIMIT_INTERVAL; lra).
  destruct (count_in_spaced RATE_LIMIT_INTERVAL a T _ 0 Hhalf Hsp) as [-> | [_ H]].
  - rewrite Zle_Qle, inject_Z_plus.
    change (inject_Z (Z.of_nat 0)) with 0. change (inject_Z 1) with 1. lra.
  - rewrite Zle_Qle, inject_Z_plus.
    change (inject_Z 1) with 1. unfold RATE_LIMIT_INTERVAL in H. lra.
Qed.

(** C7, as amended. A frame that arrives when the limiter is idle is
    emitted at once.  A second frame that arrives within the interval that
    follows is held back and emitted when that interval has elapsed, so the
    sink observes both, the earlier one first.  The frame held back is not
    replaced: the frames that arrive while it waits are never emitted. *)
Theorem two_frames_in_one_interval (st : limiter) (t1 t2 : Q) (f1 f2 : A)
    (late : list (Q * A)) :
  cb_resumes st <= t1 -> rate_next st <= t1 ->
  t1 <= t2 -> t2 < t1 + RATE_LIMIT_INTERVAL ->
  Forall (fun a => fst a < t1 + RATE_LIMIT_INTERVAL) late ->
  exists e2,
    snd (limiter_run RATE_LIMIT_INTERVAL st ((t1, f1) :: (t2, f2) :: late))
    = [(t1, f1); (e2, f2)] /\
    e2 == t1 + RATE_LIMIT_INTERVAL.
Proof.
  intros Hcb Hnext H12 H21 Hlate.
  cbn [limiter_run]. unfold limiter_update.
  apply Qle_bool_iff in Hcb. rewrite Hcb.
  unfold rate_limit_update at 1.
  replace (Qltb t1 (rate_next st)) with false
    by (symmetry; apply Qltb_false; exact Hnext).
  cbn [cb_resumes rate_next].
  apply Qle_bool_iff in H12. rewrite H12.
  unfold rate_limit_update.
  assert (Hmax : Qmax t1 (rate_next st) == t1) by (apply Q.max_l; exact Hnext).
  replace (Qltb t2 (Qmax t1 (rate_next st) + RATE_LIMIT_INTERVAL)) with true
    by (symmetry; apply Qltb_true; rewrite Hmax; exact H21).
  set (e2 := t2 + (Qmax t1 (rate_next st) + RATE_LIMIT_INTERVAL - t2)).
  assert (He2 : e2 == t1 + RATE_LIMIT_INTERVAL) by (unfold e2; rewrite Hmax; lra).
  set (st2 := {| latest_next := [f2]; cb_resumes := e2;
                 rate_next := Qmax t2 (Qmax t1 (rate_next st) + RATE_LIMIT_INTERVAL)
                              + RATE_LIMIT_INTERVAL |}).
  assert (Hbusy : Forall (fun a => fst a < cb_resumes st2) late).
  { eapply Forall_impl; [| exact Hlate]. intros a Ha. cbn [st2 cb_resumes].
    rewrite He2. exact Ha. }
  pose proof (limiter_run_busy RATE_LIMIT_INTERVAL late st2 Hbusy) as Hnone.
  destruct (limiter_run RATE_LIMIT_INTERVAL st2 late) as [st3 outs].
  cbn [snd map app] in *. subst outs.
  exists e2. split; [reflexivity | exact He2].
Qed.

End RateLimiter.

Section RateLimiterExamples.
Local Open Scope Q_scope.

(** Two seconds, a frame every half second from 0 on. *)
Lemma rate_limit_window_bound_witness :
  / RATE_LIMIT_INTERVAL == 2 /\
  spaced_from RATE_LIMIT_INTERVAL 0 (map fst (pcd_limiter_run half_second_frames)) /\
  (Z.of_nat (emitted_in_window 0%Q 2%Q (pcd_limiter_run half_second_frames))
   <= Qceiling (2 * 2)%Q + 1)%Z.
Proof.
  apply (rate_limit_window_bound half_second_frames 0 2). discriminate.
Defined.

(** C3, refuted as stated: frames produced every half second from 0 to 2
    are all emitted, five in a window of 2 seconds, where 0.5 frames per
    second would allow [ceil (2 * 0.5) + 1 = 2]. *)
Lemma five_frames_in_two_seconds :
  let emissions := pcd_limiter_run half_second_frames in
  map snd emissions = [1; 2; 3; 4; 5]%nat /\
  emitted_in_window 0 2 emissions = 5%nat /\
  (Qceiling (2 * 0.5)%Q + 1 = 2)%Z /\
  ~ (Z.of_nat (emitted_in_window 0%Q 2%Q emissions) <= Qceiling (2 * 0.5)%Q + 1)%Z.
Proof.
  cbv zeta. split; [reflexivity |]. split; [reflexivity |]. split; [reflexivity |].
  vm_compute. intros H. apply H. reflexivity.
Qed.

(** The frames of C7 at an idle limiter: two at 0 and at 0.1, and two
    more at 0.2 and at 0.4, while the second is held back until 0.5. *)
Lemma two_frames_in_one_interval_witness :
  exists e2,
    snd (limiter_run RATE_LIMIT_INTERVAL limiter_init
           ((0, 1%nat) :: (0.1, 2%nat) :: frames_while_holding))
    = [(0, 1%nat); (e2, 2%nat)] /\
    e2 == 0 + RATE_LIMIT_INTERVAL.
Proof.
  apply (two_frames_in_one_interval limiter_init 0 0.1 1%nat 2%nat frames_while_holding);
    try (vm_compute; solve [reflexivity | discriminate]).
  repeat constructor.
Defined.

(** C7, refuted as stated: of two frames produced 0.1 seconds apart, within
    one interval of 0.5 seconds, the earlier one reaches the sink too. *)
Lemma both_frames_emitted :
  let emissions := pcd_limiter_run two_close_frames in
  map snd emissions = [1; 2]%nat /\ In 1%nat (map snd emissions).
Proof.
  cbv zeta. split; [reflexivity | left; reflexivity].
Qed.

End RateLimiterExamples.

(** * Further properties of the code *)

(** ** Shapes: when [sph2cart] and [get_points] raise *)

Section Shapes.
Local Open Scope R_scope.

Lemma np_multiply_compatible (xs ys : list R) :
  (length xs = length ys \/ length xs = 1 \/ length ys = 1)%nat ->
  exists zs, np_multiply xs ys = Ok zs.
Proof.
  intros H. unfold np_multiply.
  destruct (Nat.eqb_spec (length xs) (length ys)) as [E | E]; [eexists; reflexivity |].
  destruct xs as [| x [| x' xs]]; destruct ys as [| y [| y' ys]]; simpl in *;
    try (eexists; reflexivity); lia.
Qed.

Lemma np_multiply_incompatible (xs ys : list R) :
  (length xs <> length ys)%nat -> (length xs <> 1)%nat -> (length ys <> 1)%nat ->
  np_multiply xs ys = Raise ValueError.
Proof.
  intros H1 H2 H3. unfold np_multiply.
  destruct (Nat.eqb_spec (length xs) (length ys)) as [E | E]; [contradiction |].
  destruct xs as [| x [| x' xs]]; destruct ys as [| y [| y' ys]]; simpl in *;
    try reflexivity; lia.
Qed.

Lemma np_multiply_only_value_error (xs ys : list R) (e : exn) :
  np_multiply xs ys = Raise e -> e = ValueError.
Proof.
  unfold np_multiply. destruct (Nat.eqb (length xs) (length ys)); [discriminate |].
  destruct xs as [| x [| x' xs]]; destruct ys as [| y [| y' ys]];
    try discriminate; intros [= <-]; reflexivity.
Qed.

(** [sph2cart] returns three arrays of one common length when the
    distances are as many as the (azimuth, elevation) pairs, or there is a
    single distance, or a single pair; in every other case it raises
    [ValueError]. *)
Lemma sph2cart_outcome (azimuths elevations distances : list R) :
  let n := length distances in
  let m := (length azimuths * length elevations)%nat in
  match sph2cart azimuths elevations distances with
  | Ok (x_coords, y_coords, z_coords) =>
      (n = m \/ n = 1 \/ m = 1)%nat /\
      length x_coords = (if Nat.eqb n 1 then m else n) /\
      length y_coords = length x_coords /\
      length z_coords = length x_coords
  | Raise e => e = ValueError /\ (n <> m /\ n <> 1 /\ m <> 1)%nat
  end.
Proof.
  cbv zeta. unfold sph2cart.
  change (np_meshgrid elevations azimuths)
    with (fst (np_meshgrid elevations azimuths), snd (np_meshgrid elevations azimuths)).
  cbv beta iota.
  set (els := flatten (fst (np_meshgrid elevations azimuths))).
  set (azs := flatten (snd (np_meshgrid elevations azimuths))).
  assert (Hce : length (np_cos els) = (length azimuths * length elevations)%nat)
    by (unfold np_cos, els; rewrite length_map; apply length_flatten_els).
  assert (Hse : length (np_sin els) = (length azimuths * length elevations)%nat)
    by (unfold np_sin, els; rewrite length_map; apply length_flatten_els).
  assert (Hca : length (np_cos azs) = (length azimuths * length elevations)%nat)
    by (unfold np_cos, azs; rewrite length_map; apply length_flatten_azs).
  assert (Hsa : length (np_sin azs) = (length azimuths * length elevations)%nat)
    by (unfold np_sin, azs; rewrite length_map; apply length_flatten_azs).
  destruct (np_multiply distances (np_cos els)) as [dx | e] eqn:Hdx; cbn [bind].
  - destruct (np_multiply_shape _ _ _ Hdx) as [Sdx Ldx]. rewrite Hce in Sdx, Ldx.
    assert (Cx : (length dx = length (np_cos azs) \/ length dx = 1
                  \/ length (np_cos azs) = 1)%nat).
    { rewrite Hca, Ldx. destruct (Nat.eqb_spec (length distances) 1); lia. }
    assert (Cy : (length dx = length (np_sin azs) \/ length dx = 1
                  \/ length (np_sin azs) = 1)%nat) by (rewrite Hsa, <- Hca; exact Cx).
    assert (Cz : (length distances = length (np_sin els) \/ length distances = 1
                  \/ length (np_sin els) = 1)%nat) by (rewrite Hse; exact Sdx).
    destruct (np_multiply_compatible _ _ Cx) as [xs Hxs].
    destruct (np_multiply_compatible _ _ Cy) as [ys Hys].
    destruct (np_multiply_compatible _ _ Cz) as [zs Hzs].
    rewrite Hxs. cbn [bind]. rewrite Hys. cbn [bind]. rewrite Hzs. cbn [bind].
    destruct (np_multiply_shape _ _ _ Hxs) as [_ Lxs].
    destruct (np_multiply_shape _ _ _ Hys) as [_ Lys].
    destruct (np_multiply_shape _ _ _ Hzs) as [_ Lzs].
    rewrite Hca in Lxs. rewrite Hsa in Lys. rewrite Hse in Lzs.
    split; [exact Sdx |].
    revert Ldx Lxs Lys Lzs.
    destruct (Nat.eqb_spec (length dx) 1), (Nat.eqb_spec (length distances) 1);
      intros Ldx Lxs Lys Lzs; lia.
  - split; [exact (np_multiply_only_value_error _ _ _ Hdx) |].
    assert (Hno : ~ (length distances = length (np_cos els) \/ length distances = 1
                     \/ length (np_cos els) = 1)%nat).
    { intros C. destruct (np_multiply_compatible _ _ C) as [zs Hzs]. congruence. }
    rewrite Hce in Hno. lia.
Qed.

Lemma length_filter_le {A : Type} (f : A -> bool) (l : list A) :
  (length (filter f l) <= length l)%nat.
Proof.
  induction l as [| a l IH]; simpl; [lia |]. destruct (f a); simpl; lia.
Qed.

Lemma length_be_u2_half (buf : list byte) :
  Nat.even (length buf) = true -> length (be_u2 buf) = (length buf / 2)%nat.
Proof.
  intros H. apply Nat.even_spec in H. destruct H as [k Hk].
  rewrite (length_be_u2 k buf Hk), Hk, Nat.mul_comm, Nat.div_mul by lia.
  reflexivity.
Qed.

(** X1. [get_points] succeeds exactly when the buffer has an even number
    of bytes and its samples are as many as the (azimuth, elevation) pairs,
    or there is a single sample, or a single pair; the points it returns
    are never more than the shape that numpy broadcasts to.  Whenever it
    fails, it is with [ValueError]: on a buffer of odd length, or on shapes
    that do not broadcast. *)
Theorem get_points_outcome (azimuths elevations : list R) (binary_distances : list byte) :
  let n := (length binary_distances / 2)%nat in
  let m := (length azimuths * length elevations)%nat in
  match get_points azimuths elevations binary_distances with
  | Ok points =>
      Nat.even (length binary_distances) = true /\
      (n = m \/ n = 1 \/ m = 1)%nat /\
      (length points <= (if Nat.eqb n 1 then m else n))%nat
  | Raise e =>
      e = ValueError /\
      (Nat.odd (length binary_distances) = true \/ (n <> m /\ n <> 1 /\ m <> 1)%nat)
  end.
Proof.
  cbv zeta. unfold get_points, np_frombuffer_u2.
  destruct (Nat.even (length binary_distances)) eqn:Heven; cbn [bind].
  - pose proof (sph2cart_outcome azimuths elevations
                  (map (fun d => d / 100) (map IZR (be_u2 binary_distances)))) as H.
    cbv zeta in H. rewrite !length_map, (length_be_u2_half _ Heven) in H.
    destruct (sph2cart _ _ _) as [[[xs ys] zs] | e]; cbn [bind].
    + destruct H as [Hshape [Lx [Ly Lz]]].
      unfold np_column_stack, np_negative. rewrite length_map, Ly, Lz, !Nat.eqb_refl.
      cbn [andb bind]. rewrite map_map, np_mask_filter.
      split; [reflexivity | split; [exact Hshape |]].
      rewrite <- Lx, <- (length_zip3 xs (map Ropp ys) zs)
        by (rewrite ?length_map; congruence).
      apply length_filter_le.
    + destruct H as [He Hshape]. split; [exact He | right; exact Hshape].
  - split; [reflexivity | left]. rewrite <- Nat.negb_even, Heven. reflexivity.
Qed.

(** X2. A single distance is broadcast to the whole grid: [sph2cart]
    returns for it what it returns for that distance repeated once per
    (azimuth, elevation) pair. *)
Theorem sph2cart_single_distance (azimuths elevations : list R) (d : R) :
  sph2cart azimuths elevations [d]
  = sph2cart azimuths elevations (repeat d (length azimuths * length elevations)).
Proof.
  assert (Hm : forall ys : list R,
             np_multiply [d] ys = np_multiply (repeat d (length ys)) ys).
  { intros ys. unfold np_multiply. rewrite repeat_length, Nat.eqb_refl.
    assert (Hz : forall l : list R, zip_mult (repeat d (length l)) l
                                    = map (fun y => d * y) l)
      by (induction l as [| y l IH]; simpl; [| rewrite IH]; reflexivity).
    rewrite Hz. destruct ys as [| y [| y' ys]]; reflexivity. }
  unfold sph2cart.
  change (np_meshgrid elevations azimuths)
    with (fst (np_meshgrid elevations azimuths), snd (np_meshgrid elevations azimuths)).
  cbv beta iota.
  rewrite (Hm (np_cos _)), (Hm (np_sin _)).
  unfold np_cos, np_sin. rewrite !length_map, length_flatten_els. reflexivity.
Qed.

End Shapes.

(** ** Where the points of a cloud come from *)

Section Provenance.
Local Open Scope R_scope.

Lemma cartesian_points_outcome (azimuths elevations distances : list R) :
  let n := length distances in
  let m := (length azimuths * length elevations)%nat in
  match cartesian_points azimuths elevations distances with
  | Ok points =>
      (n = m \/ n = 1 \/ m = 1)%nat /\ length points = (if Nat.eqb n 1 then m else n)
  | Raise e => e = ValueError /\ (n <> m /\ n <> 1 /\ m <> 1)%nat
  end.
Proof.
  cbv zeta. unfold cartesian_points.
  pose proof (sph2cart_outcome azimuths elevations distances) as H. cbv zeta in H.
  destruct (sph2cart _ _ _) as [[[xs ys] zs] | e]; cbn [bind]; [| exact H].
  destruct H as [Hshape [Lx [Ly Lz]]].
  unfold np_column_stack, np_negative. rewrite length_map, Ly, Lz, !Nat.eqb_refl.
  cbn [andb]. split; [exact Hshape |].
  rewrite <- Lx. apply length_zip3; rewrite ?length_map; congruence.
Qed.

(** The point at position [k], with the indices that broadcasting reads. *)
Lemma cartesian_points_nth (azimuths elevations distances : list R)
    (points : list point) (k : nat) (p : point) :
  cartesian_points azimuths elevations distances = Ok points ->
  nth_error points k = Some p ->
  let els := flatten (fst (np_meshgrid elevations azimuths)) in
  let azs := flatten (snd (np_meshgrid elevations azimuths)) in
  let kd := bidx (length distances) k in
  let kg := bidx (length azimuths * length elevations) k in
  (kd < length distances)%nat /\ (kg < length azimuths * length elevations)%nat /\
  p = (nth kd distances 0 * cos (nth kg els 0) * cos (nth kg azs 0),
       - (nth kd distances 0 * cos (nth kg els 0) * sin (nth kg azs 0)),
       nth kd distances 0 * sin (nth kg els 0)).
Proof.
  unfold cartesian_points, sph2cart.
  change (np_meshgrid elevations azimuths)
    with (fst (np_meshgrid elevations azimuths), snd (np_meshgrid elevations azimuths)).
  cbv beta iota zeta.
  set (els := flatten (fst (np_meshgrid elevations azimuths))).
  set (azs := flatten (snd (np_meshgrid elevations azimuths))).
  assert (Hels : length els = (length azimuths * length elevations)%nat)
    by apply length_flatten_els.
  assert (Hazs : length azs = (length azimuths * length elevations)%nat)
    by apply length_flatten_azs.
  destruct (np_multiply distances (np_cos els)) as [dc | e] eqn:Hdc; cbn [bind];
    [| discriminate].
  destruct (np_multiply dc (np_cos azs)) as [xs | e] eqn:Hxs; cbn [bind];
    [| discriminate].
  destruct (np_multiply dc (np_sin azs)) as [ys | e] eqn:Hys; cbn [bind];
    [| discriminate].
  destruct (np_multiply distances (np_sin els)) as [zs | e] eqn:Hzs; cbn [bind];
    [| discriminate].
  unfold np_column_stack, np_negative.
  destruct (Nat.eqb (length xs) (length (map Ropp ys))
            && Nat.eqb (length (map Ropp ys)) (length zs)) eqn:Hst; [| discriminate].
  intros [= <-] Hk.
  apply andb_true_iff in Hst. destruct Hst as [Hxy Hyz].
  apply Nat.eqb_eq in Hxy, Hyz.
  assert (Hlt : (k < length (zip3 xs (map Ropp ys) zs))%nat)
    by (apply nth_error_Some; rewrite Hk; discriminate).
  rewrite (length_zip3 _ _ _ Hxy Hyz) in Hlt.
  rewrite (nth_error_zip3 _ _ _ _ Hxy Hyz Hlt) in Hk. injection Hk as <-.
  rewrite length_map in Hxy, Hyz.
  rewrite (nth_map_in Ropp ys k 0 0) by lia.
  destruct (np_multiply_shape _ _ _ Hdc) as [Sdc Ldc].
  destruct (np_multiply_shape _ _ _ Hxs) as [Sxs Lxs].
  rewrite (np_multiply_nth _ _ _ k Hxs) by lia.
  rewrite (np_multiply_nth _ _ _ k Hys) by lia.
  rewrite (np_multiply_nth _ _ _ k Hzs) by lia.
  unfold np_cos, np_sin in *. rewrite !length_map in *.
  rewrite Hels in *. rewrite Hazs in *.
  set (m := (length azimuths * length elevations)%nat) in *.
  assert (Hidx : bidx (length dc) k = k /\ (k < length dc)%nat /\
                 (bidx (length distances) k < length distances)%nat /\
                 (bidx m k < m)%nat).
  { revert Ldc Lxs. unfold bidx.
    destruct (Nat.eqb_spec (length dc) 1), (Nat.eqb_spec (length distances) 1),
      (Nat.eqb_spec m 1); intros Ldc Lxs; lia. }
  destruct Hidx as [Hkd [Hkdc [Hkr Hkg]]].
  rewrite Hkd.
  rewrite (np_multiply_nth _ _ _ _ Hdc Hkdc).
  rewrite !length_map, ?Hels.
  split; [exact Hkr | split; [exact Hkg |]].
  fold m.
  rewrite (nth_map_in cos els _ 0 0), (nth_map_in sin els _ 0 0),
    (nth_map_in cos azs _ 0 0), (nth_map_in sin azs _ 0 0) by lia.
  reflexivity.
Qed.

Lemma in_flatten_els (elevations azimuths : list R) (x : R) :
  In x (flatten (fst (np_meshgrid elevations azimuths))) -> In x elevations.
Proof.
  unfold flatten. simpl. intros H. apply in_concat in H.
  destruct H as [row [Hrow Hx]]. apply in_map_iff in Hrow.
  destruct Hrow as [a [<- _]]. exact Hx.
Qed.

Lemma in_flatten_azs (elevations azimuths : list R) (x : R) :
  In x (flatten (snd (np_meshgrid elevations azimuths))) -> In x azimuths.
Proof.
  unfold flatten. simpl. intros H. apply in_concat in H.
  destruct H as [row [Hrow Hx]]. apply in_map_iff in Hrow.
  destruct Hrow as [a [<- Ha]]. apply in_map_iff in Hx.
  destruct Hx as [e [<- _]]. exact Ha.
Qed.

Lemma usable_sample (u : Z) :
  (0 <= u)%Z -> usable (Rabs (IZR u / 100)) = ((50 <=? u)%Z && (u <=? 20000)%Z).
Proof.
  intros Hu.
  assert (Hd : 0 <= IZR u / 100)
    by (apply Rmult_le_pos; [apply IZR_le; exact Hu | lra]).
  rewrite (Rabs_pos_eq _ Hd).
  apply eq_true_iff_eq. rewrite usable_iff, andb_true_iff, !Z.leb_le.
  split.
  - intros [H1 H2]. split; apply le_IZR; lra.
  - intros [H1 H2]. apply IZR_le in H1, H2. lra.
Qed.

End Provenance.

(** ** How many points the range filter returns *)

Section FloatGrid.
Context {F : Type} (fl : arith F).

Lemma np_multiply_fl_same_shape (xs ys : list F) :
  length xs = length ys -> np_multiply_fl fl xs ys = Ok (zip_mult_fl fl xs ys).
Proof.
  intros H. unfold np_multiply_fl. rewrite H, Nat.eqb_refl. reflexivity.
Qed.

Lemma candidate_points_fl_grid (azimuths elevations : list F)
    (binary_distances : list byte) :
  length binary_distances = (2 * (length azimuths * length elevations))%nat ->
  exists points,
    candidate_points_fl fl azimuths elevations binary_distances = Ok points /\
    length points = length (be_u2 binary_distances).
Proof.
  intros Hlen. unfold candidate_points_fl, np_frombuffer_u2.
  replace (Nat.even (length binary_distances)) with true
    by (symmetry; apply Nat.even_spec; eexists; exact Hlen).
  cbn [bind].
  set (raw := be_u2 binary_distances).
  assert (Hraw : length raw = (length azimuths * length elevations)%nat)
    by (apply length_be_u2; exact Hlen).
  set (ds := map (fun u => f_div fl (f_of_Z fl u) (f_of_Z fl 100)) raw).
  assert (Hds : length ds = length raw) by (unfold ds; apply length_map).
  unfold sph2cart_fl.
  change (np_meshgrid_fl elevations azimuths)
    with (fst (np_meshgrid_fl elevations azimuths),
          snd (np_meshgrid_fl elevations azimuths)).
  cbv beta iota.
  set (els := flatten_fl (fst (np_meshgrid_fl elevations azimuths))).
  set (azs := flatten_fl (snd (np_meshgrid_fl elevations azimuths))).
  assert (Hels : length els = length raw)
    by (unfold els; rewrite length_flatten_fl_els; lia).
  assert (Hazs : length azs = length raw)
    by (unfold azs; rewrite length_flatten_fl_azs; lia).
  assert (Hdc : length (zip_mult_fl fl ds (map (f_cos fl) els)) = length raw)
    by (rewrite length_zip_mult_fl; rewrite ?length_map; lia).
  rewrite (np_multiply_fl_same_shape ds (map (f_cos fl) els))
    by (rewrite length_map; lia).
  cbn [bind].
  rewrite (np_multiply_fl_same_shape _ (map (f_cos fl) azs))
    by (rewrite Hdc, length_map; lia).
  cbn [bind].
  rewrite (np_multiply_fl_same_shape _ (map (f_sin fl) azs))
    by (rewrite Hdc, length_map; lia).
  cbn [bind].
  rewrite (np_multiply_fl_same_shape ds (map (f_sin fl) els))
    by (rewrite length_map; lia).
  cbn [bind].
  assert (Hx : length (zip_mult_fl fl (zip_mult_fl fl ds (map (f_cos fl) els))
                                   (map (f_cos fl) azs)) = length raw)
    by (rewrite length_zip_mult_fl; rewrite ?length_map; lia).
  assert (Hy : length (map (f_neg fl)
                         (zip_mult_fl fl (zip_mult_fl fl ds (map (f_cos fl) els))
                                      (map (f_sin fl) azs))) = length raw)
    by (rewrite length_map, length_zip_mult_fl; rewrite ?length_map; lia).
  assert (Hz : length (zip_mult_fl fl ds (map (f_sin fl) els)) = length raw)
    by (rewrite length_zip_mult_fl; rewrite ?length_map; lia).
  unfold np_column_stack_fl. rewrite Hx, Hy, Hz, Nat.eqb_refl. cbn [andb].
  eexists. split; [reflexivity |].
  rewrite length_zip3_fl; lia.
Qed.

End FloatGrid.

Section RoundedCount.
Local Open Scope R_scope.

Lemma length_filter_implied {A B : Type} (f : A -> bool) (g : B -> bool)
    (l1 : list A) (l2 : list B) :
  length l1 = length l2 ->
  (forall k a b, nth_error l1 k = Some a -> nth_error l2 k = Some b ->
                 f a = true -> g b = true) ->
  (length (filter f l1) <= length (filter g l2))%nat.
Proof.
  revert l2. induction l1 as [| a l1 IH]; intros [| b l2] Hlen H; simpl in *;
    try discriminate; [lia |].
  assert (Hrest : (length (filter f l1) <= length (filter g l2))%nat).
  { apply IH; [lia |]. intros k a' b' Ha Hb. exact (H (S k) a' b' Ha Hb). }
  pose proof (H 0%nat a b eq_refl eq_refl) as H0.
  destruct (f a); [rewrite (H0 eq_refl) |]; simpl; [lia |].
  destruct (g b); simpl; lia.
Qed.

(** X3. With as many samples as (azimuth, elevation) pairs, [get_points]
    returns, whatever the rounding of float64, at least as many points as
    there are samples between 51 and 19999, and at most as many as there
    are samples between 50 and 20000 (0.5 m and 200 m). *)
Theorem get_points_count (rnd fcos fsin : R -> R)
    (azimuths elevations : list R) (binary_distances : list byte) :
  (forall x, Rabs x <= 2097152 -> Rabs (rnd x - x) <= / 4294967296) ->
  (forall x, Rabs (fcos x - cos x) <= / 4294967296) ->
  (forall x, Rabs (fsin x - sin x) <= / 4294967296) ->
  length binary_distances = (2 * (length azimuths * length elevations))%nat ->
  exists points,
    get_points_fl (rounded rnd fcos fsin) azimuths elevations binary_distances
    = Ok points /\
    (length (filter (fun u => (51 <=? u)%Z && (u <=? 19999)%Z) (be_u2 binary_distances))
     <= length points
     <= length (filter (fun u => (50 <=? u)%Z && (u <=? 20000)%Z)
                       (be_u2 binary_distances)))%nat.
Proof.
  intros Hrnd Hcos Hsin Hlen.
  set (fl := rounded rnd fcos fsin).
  destruct (candidate_points_fl_grid fl azimuths elevations binary_distances Hlen)
    as [cands [Hcand Hsize]].
  exists (filter (fun p => usable_fl fl (norm_fl fl p)) cands).
  split; [rewrite get_points_fl_filter, Hcand; reflexivity |].
  assert (Hpt : forall k p u,
             nth_error cands k = Some p ->
             nth_error (be_u2 binary_distances) k = Some u ->
             ((51 <= u <= 19999)%Z -> usable_fl fl (norm_fl fl p) = true) /\
             ((u <= 49 \/ 20001 <= u)%Z -> usable_fl fl (norm_fl fl p) = false)).
  { intros k p u Hp Hu.
    destruct (candidate_points_fl_nth _ _ _ _ _ _ _ Hcand Hp)
      as [u' [az [el [Hu' [_ [_ Heq]]]]]].
    assert (Hk : (k < length (be_u2 binary_distances))%nat)
      by (apply nth_error_Some; rewrite Hu; discriminate).
    assert (Hb : bidx (length (be_u2 binary_distances)) k = k).
    { unfold bidx. destruct (Nat.eqb_spec (length (be_u2 binary_distances)) 1); lia. }
    rewrite Hb, Hu in Hu'. injection Hu' as <-.
    cbv zeta in Heq. unfold fl in Heq.
    cbn [rounded f_mul f_div f_of_Z f_cos f_sin f_neg] in Heq.
    change (IZR 100) with 100 in Heq.
    assert (Hrange : (0 <= u < 65536)%Z).
    { pose proof (be_u2_nonneg binary_distances) as Hall.
      rewrite Forall_forall in Hall. apply Hall. eapply nth_error_In. exact Hu. }
    pose proof (rounded_usable rnd fcos fsin Hrnd Hcos Hsin u az el Hrange) as H.
    cbv zeta in H. rewrite <- Heq in H. exact H. }
  split.
  - apply length_filter_implied; [symmetry; exact Hsize |].
    intros k u p Hu Hp Hin.
    apply andb_true_iff in Hin. destruct Hin as [H1 H2].
    apply Z.leb_le in H1, H2.
    destruct (Hpt k p u Hp Hu) as [Hkeep _]. apply Hkeep. lia.
  - apply length_filter_implied; [exact Hsize |].
    intros k p u Hp Hu Hkept.
    destruct (Hpt k p u Hp Hu) as [_ Hdrop].
    apply andb_true_iff. rewrite !Z.leb_le.
    destruct (Z_le_gt_dec u 49) as [Hlow | Hlow];
      [rewrite Hdrop in Hkept by (left; exact Hlow); discriminate |].
    destruct (Z_le_gt_dec 20001 u) as [Hhigh | Hhigh];
      [rewrite Hdrop in Hkept by (right; exact Hhigh); discriminate |].
    lia.
Qed.

(** Four samples on a grid of two azimuths and two beams. *)
Lemma get_points_count_witness :
  exists points,
    get_points_fl (rounded (fun x => x) cos sin) [0; 1] [0; 1] (samples_1000 4)
    = Ok points /\
    (length (filter (fun u => (51 <=? u)%Z && (u <=? 19999)%Z) (be_u2 (samples_1000 4)))
     <= length points
     <= length (filter (fun u => (50 <=? u)%Z && (u <=? 20000)%Z)
                       (be_u2 (samples_1000 4))))%nat.
Proof.
  apply (get_points_count (fun x => x) cos sin [0; 1] [0; 1] (samples_1000 4)).
  - intros x _. replace (x - x) with 0 by ring. rewrite Rabs_R0. lra.
  - intros x. replace (cos x - cos x) with 0 by ring. rewrite Rabs_R0. lra.
  - intros x. replace (sin x - sin x) with 0 by ring. rewrite Rabs_R0. lra.
  - reflexivity.
Defined.

End RoundedCount.

(** ** The loop over the slices *)

Section Accumulation.
Local Open Scope R_scope.

Lemma accumulate_app (envs1 envs2 : list PointCloudReading) (azs : list R)
    (bin : list byte) :
  accumulate (envs1 ++ envs2) azs bin
  = (' (azs', bin') <- accumulate envs1 azs bin ;; accumulate envs2 azs' bin').
Proof.
  revert azs bin. induction envs1 as [| msg rest IH]; intros azs bin;
    cbn [app accumulate]; [reflexivity |].
  destruct (is_empty (distances msg)); [apply IH |].
  destruct (get_number_of_azimuths _ _) as [q | e]; cbn [bind]; [| reflexivity].
  destruct (np_linspace _ _ _) as [l | e]; cbn [bind]; [apply IH | reflexivity].
Qed.

Lemma accumulate_extends (envelopes : list PointCloudReading) (azs : list R)
    (bin : list byte) (azs' : list R) (bin' : list byte) :
  accumulate envelopes azs bin = Ok (azs', bin') -> exists l, azs' = azs ++ l.
Proof.
  revert azs bin. induction envelopes as [| msg rest IH]; intros azs bin;
    cbn [accumulate].
  - intros [= <- _]. exists []. rewrite app_nil_r. reflexivity.
  - destruct (is_empty (distances msg)); [apply IH |].
    destruct (get_number_of_azimuths _ _) as [q | e]; cbn [bind]; [| discriminate].
    destruct (np_linspace _ _ _) as [l | e]; cbn [bind]; [| discriminate].
    intros H. apply IH in H. destruct H as [l' ->].
    exists (l ++ l'). rewrite app_assoc. reflexivity.
Qed.

(** X5. The loop takes the slices in arrival order.  If a revolution is
    accumulated without error, so is any leading part of it; the azimuths
    and the bytes of that part come first in the result, the bytes are
    those of all slices concatenated, and every slice adds as many azimuths
    as its count says. *)
Theorem accumulate_in_arrival_order (envs1 envs2 : list PointCloudReading)
    (azs : list R) (bin : list byte) :
  accumulate (envs1 ++ envs2) [] [] = Ok (azs, bin) ->
  exists azs1 azs2,
    accumulate envs1 [] [] = Ok (azs1, concat (map distances envs1)) /\
    accumulate envs2 azs1 (concat (map distances envs1)) = Ok (azs, bin) /\
    azs = azs1 ++ azs2 /\
    bin = concat (map distances envs1) ++ concat (map distances envs2) /\
    length azs1 = list_sum (map azimuth_count envs1) /\
    length azs2 = list_sum (map azimuth_count envs2).
Proof.
  intros H. rewrite accumulate_app in H.
  destruct (accumulate envs1 [] []) as [[azs1 bin1] | e] eqn:H1; cbn [bind] in H;
    [| discriminate].
  pose proof (accumulate_bytes _ _ _ _ _ H1) as Hb1. cbn [app] in Hb1. subst bin1.
  destruct (accumulate_extends _ _ _ _ _ H) as [azs2 ->].
  exists azs1, azs2.
  split; [reflexivity |]. split; [exact H |]. split; [reflexivity |].
  split; [exact (accumulate_bytes _ _ _ _ _ H) |].
  pose proof (accumulate_azimuths _ _ _ _ _ H1) as Hc1. cbn [length] in Hc1.
  pose proof (accumulate_azimuths _ _ _ _ _ H) as Hc. rewrite length_app in Hc.
  split; [exact Hc1 | lia].
Qed.

Lemma accumulate_in_arrival_order_witness :
  exists azs1 azs2,
    accumulate [slice_0_0_16] [] [] = Ok (azs1, concat (map distances [slice_0_0_16])) /\
    accumulate [slice_10_20_16] azs1 (concat (map distances [slice_0_0_16]))
    = Ok ([INR 0 * (0 - 0) + 0; INR 0 * ((20 - 10) / 1) + 10; 20],
          samples_1000 16 ++ samples_1000 32) /\
    [INR 0 * (0 - 0) + 0; INR 0 * ((20 - 10) / 1) + 10; 20] = azs1 ++ azs2 /\
    samples_1000 16 ++ samples_1000 32
    = concat (map distances [slice_0_0_16]) ++ concat (map distances [slice_10_20_16]) /\
    length azs1 = list_sum (map azimuth_count [slice_0_0_16]) /\
    length azs2 = list_sum (map azimuth_count [slice_10_20_16]).
Proof.
  apply (accumulate_in_arrival_order [slice_0_0_16] [slice_10_20_16]).
  evaluate. reflexivity.
Defined.

Lemma accumulate_skips_empty (envelopes : list PointCloudReading) (azs : list R)
    (bin : list byte) :
  accumulate (filter (fun m => negb (is_empty (distances m))) envelopes) azs bin
  = accumulate envelopes azs bin.
Proof.
  revert azs bin. induction envelopes as [| msg rest IH]; intros azs bin;
    cbn [filter accumulate]; [reflexivity |].
  destruct (is_empty (distances msg)) eqn:E; cbn [negb]; [apply IH |].
  cbn [accumulate]. rewrite E.
  destruct (get_number_of_azimuths _ _) as [q | e]; cbn [bind]; [| reflexivity].
  destruct (np_linspace _ _ _) as [l | e]; cbn [bind]; [apply IH | reflexivity].
Qed.

(** X6. Slices without samples are skipped before anything else is read
    from them: removing them from the revolution does not change what the
    extractor returns, whatever their other fields (0 entries per azimuth
    included). *)
Theorem extractor_skips_empty_slices (envelopes : list PointCloudReading) :
  point_cloud_reading_extractor
    (filter (fun m => negb (is_empty (distances m))) envelopes)
  = point_cloud_reading_extractor envelopes.
Proof.
  unfold point_cloud_reading_extractor, extract_points.
  rewrite accumulate_skips_empty. reflexivity.
Qed.

(** X7. A revolution in which no slice has samples yields nothing, and
    not through the [except] branch: the body of the [try] block returns an
    empty cloud. *)
Theorem extractor_without_samples (envelopes : list PointCloudReading) :
  (forall m, In m envelopes -> distances m = []) ->
  extract_points envelopes = Ok [] /\
  point_cloud_reading_extractor envelopes = None.
Proof.
  intros Hall.
  assert (Hfil : filter (fun m => negb (is_empty (distances m))) envelopes = []).
  { induction envelopes as [| m rest IH]; [reflexivity |]. cbn [filter].
    rewrite (Hall m (or_introl eq_refl)). cbn [is_empty negb].
    apply IH. intros m' Hm'. apply Hall. right. exact Hm'. }
  assert (Hex : extract_points envelopes = Ok []).
  { unfold extract_points. rewrite <- accumulate_skips_empty, Hfil. reflexivity. }
  split; [exact Hex |].
  unfold point_cloud_reading_extractor. rewrite Hex. reflexivity.
Qed.

Lemma extractor_without_samples_witness :
  extract_points [slice_empty; slice_empty] = Ok [] /\
  point_cloud_reading_extractor [slice_empty; slice_empty] = None.
Proof.
  apply (extractor_without_samples [slice_empty; slice_empty]).
  intros m [<- | [<- | []]]; reflexivity.
Defined.

End Accumulation.

(** ** Azimuths of a slice, and revolutions that always decode *)

Section Azimuths.
Local Open Scope R_scope.

Lemma np_linspace_ok (start stop : R) (num : Z) :
  (0 <= num)%Z -> exists l, np_linspace start stop num = Ok l.
Proof.
  intros H. unfold np_linspace.
  destruct (Z.ltb_spec num 0); [lia | eexists; reflexivity].
Qed.

(** The values of [np.linspace]: evenly spaced from [start], the last one
    being [stop] when there are at least two. *)
Lemma np_linspace_nth (start stop : R) (num : Z) (l : list R) (k : nat) :
  np_linspace start stop num = Ok l -> (k < length l)%nat ->
  nth k l 0 = start + INR k * ((stop - start) / INR (length l - 1)).
Proof.
  intros H Hk. pose proof (np_linspace_length _ _ _ _ H) as [Hnum Hlen].
  revert H. unfold np_linspace.
  destruct (Z.ltb_spec num 0) as [Hneg | _]; [discriminate |].
  intros [= H].
  assert (HINR : INR (length l - 1) = IZR (num - 1)).
  { rewrite Hlen, INR_IZR_INZ. f_equal. lia. }
  set (y := map (fun v => v + start)
                (if (0 <? num - 1)%Z
                 then map (fun v => v * ((stop - start) / IZR (num - 1)))
                          (map INR (seq 0 (Z.to_nat num)))
                 else map (fun v => v * (stop - start))
                          (map INR (seq 0 (Z.to_nat num))))) in H.
  assert (Hy_len : length y = Z.to_nat num)
    by (unfold y; destruct (0 <? num - 1)%Z; rewrite !length_map, length_seq;
        reflexivity).
  assert (Hy : forall i, (i < Z.to_nat num)%nat ->
               nth i y 0 = (if (0 <? num - 1)%Z
                            then INR i * ((stop - start) / IZR (num - 1))
                            else INR i * (stop - start)) + start).
  { intros i Hi. unfold y.
    rewrite (nth_map_in (fun v => v + start) _ i 0 0)
      by (destruct (0 <? num - 1)%Z; rewrite !length_map, length_seq; exact Hi).
    f_equal.
    destruct (0 <? num - 1)%Z.
    - rewrite (nth_map_in (fun v => v * ((stop - start) / IZR (num - 1))) _ i 0 0)
        by (rewrite length_map, length_seq; exact Hi).
      rewrite (nth_map_in INR _ i 0 0%nat) by (rewrite length_seq; exact Hi).
      rewrite seq_nth by exact Hi. reflexivity.
    - rewrite (nth_map_in (fun v => v * (stop - start)) _ i 0 0)
        by (rewrite length_map, length_seq; exact Hi).
      rewrite (nth_map_in INR _ i 0 0%nat) by (rewrite length_seq; exact Hi).
      rewrite seq_nth by exact Hi. reflexivity. }
  rewrite HINR. clear HINR. rewrite Hlen in Hk. clear Hlen.
  revert H. destruct (Z.ltb_spec 1 num) as [Hbig | Hsmall]; intros <-.
  - (* at least two values: the last one is overwritten by [stop] *)
    assert (Hdiv : (0 <? num - 1)%Z = true) by (apply Z.ltb_lt; lia).
    rewrite Hdiv in Hy.
    assert (Hnz : IZR (num - 1) <> 0) by (apply not_0_IZR; lia).
    assert (Hrl : length (removelast y) = (Z.to_nat num - 1)%nat)
      by (rewrite removelast_firstn_len, length_firstn, Hy_len; lia).
    unfold set_last.
    destruct (Nat.eq_dec k (Z.to_nat num - 1)) as [-> | Hneq].
    + rewrite app_nth2 by lia. rewrite Hrl, Nat.sub_diag. cbn [nth].
      rewrite INR_IZR_INZ.
      replace (Z.of_nat (Z.to_nat num - 1)) with (num - 1)%Z by lia.
      field. exact Hnz.
    + rewrite app_nth1 by lia.
      rewrite removelast_firstn_len, nth_firstn.
      replace (k <? Nat.pred (length y))%nat with true
        by (symmetry; apply Nat.ltb_lt; rewrite Hy_len; lia).
      rewrite Hy by lia. lra.
  - (* no value, or one: [div] is not positive *)
    assert (Hdiv : (0 <? num - 1)%Z = false) by (apply Z.ltb_ge; lia).
    rewrite Hdiv in Hy. rewrite Hy by lia.
    assert (Hk0 : k = 0%nat) by lia. subst k. simpl. lra.
Qed.

(** X8. A slice with samples and a positive number of entries per azimuth
    never makes the loop raise.  It contributes [len / (2 * entries)]
    azimuths (integer quotient) and all of its bytes.  The azimuths are
    evenly spaced from [startAzimuth]; with two or more the last one is
    [endAzimuth], with a single one [endAzimuth] is not used. *)
Theorem slice_azimuths (msg : PointCloudReading) :
  distances msg <> [] -> (0 < entriesPerAzimuth msg)%Z ->
  exists azs,
    accumulate [msg] [] [] = Ok (azs, distances msg) /\
    Z.of_nat (length azs)
    = (Z.of_nat (length (distances msg)) / (2 * entriesPerAzimuth msg))%Z /\
    (forall k, (k < length azs)%nat ->
       nth k azs 0
       = startAzimuth msg
         + INR k * ((endAzimuth msg - startAzimuth msg) / INR (length azs - 1))) /\
    (length azs = 1%nat -> azs = [startAzimuth msg]) /\
    ((2 <= length azs)%nat ->
     nth 0 azs 0 = startAzimuth msg /\ nth (length azs - 1) azs 0 = endAzimuth msg).
Proof.
  intros Hne Hpos. cbn [accumulate].
  destruct (distances msg) as [| b bs] eqn:Hd; [congruence |]. cbn [is_empty].
  unfold get_number_of_azimuths.
  destruct (entriesPerAzimuth msg) as [| e | e] eqn:He; try lia.
  cbn [Z.eqb bind]. rewrite <- Hd, python_int_quotient.
  set (num := (Z.of_nat (length (distances msg)) / Z.pos (2 * e))%Z).
  assert (Hnum : (0 <= num)%Z) by (apply Z.div_pos; lia).
  destruct (np_linspace_ok (startAzimuth msg) (endAzimuth msg) num Hnum) as [l Hl].
  rewrite Hl. cbn [bind app]. exists l.
  pose proof (np_linspace_length _ _ _ _ Hl) as [_ Hlen].
  pose proof (fun k => np_linspace_nth _ _ _ _ k Hl) as Hnth.
  split; [reflexivity |].
  split; [rewrite Hlen, Z2Nat.id by exact Hnum; reflexivity |].
  split; [exact Hnth |].
  split.
  - intros H1. destruct l as [| a [| a' l]]; try discriminate.
    specialize (Hnth 0%nat ltac:(simpl; lia)). cbn [nth] in Hnth.
    rewrite Hnth. f_equal. simpl. lra.
  - intros H2. split.
    + rewrite Hnth by lia. simpl. lra.
    + rewrite Hnth by lia.
      assert (Hn : INR (length l - 1) <> 0) by (apply not_0_INR; lia).
      field. exact Hn.
Qed.

(** Two columns swept from 10 to 20 degrees. *)
Lemma slice_azimuths_witness :
  exists azs,
    accumulate [slice_10_20_16] [] [] = Ok (azs, distances slice_10_20_16) /\
    Z.of_nat (length azs)
    = (Z.of_nat (length (distances slice_10_20_16))
       / (2 * entriesPerAzimuth slice_10_20_16))%Z /\
    (forall k, (k < length azs)%nat ->
       nth k azs 0
       = startAzimuth slice_10_20_16
         + INR k * ((endAzimuth slice_10_20_16 - startAzimuth slice_10_20_16)
                    / INR (length azs - 1))) /\
    (length azs = 1%nat -> azs = [startAzimuth slice_10_20_16]) /\
    ((2 <= length azs)%nat ->
     nth 0 azs 0 = startAzimuth slice_10_20_16 /\
     nth (length azs - 1) azs 0 = endAzimuth slice_10_20_16).
Proof.
  apply (slice_azimuths slice_10_20_16); [discriminate | reflexivity].
Defined.

Lemma accumulate_well_formed (envelopes : list PointCloudReading) (azs : list R)
    (bin : list byte) :
  Forall well_formed envelopes ->
  exists azs', accumulate envelopes azs bin
               = Ok (azs', bin ++ concat (map distances envelopes)).
Proof.
  intros Hwf. revert azs bin.
  induction Hwf as [| msg rest Hmsg _ IH]; intros azs bin; cbn [accumulate map concat].
  - exists azs. rewrite app_nil_r. reflexivity.
  - destruct (distances msg) as [| b bs] eqn:Hd; cbn [is_empty app].
    + apply IH.
    + destruct Hmsg as [Hempty | [He _]]; [congruence |].
      rewrite He. unfold get_number_of_azimuths. cbn [Z.eqb bind].
      rewrite python_int_quotient.
      destruct (np_linspace_ok (startAzimuth msg) (endAzimuth msg)
                  (Z.of_nat (length (b :: bs)) / Z.pos (2 * 16))
                  ltac:(apply Z.div_pos; lia)) as [l Hl].
      rewrite Hl. cbn [bind].
      destruct (IH (azs ++ l) (bin ++ b :: bs)) as [azs' Hacc].
      exists azs'. rewrite Hacc, <- app_assoc. reflexivity.
Qed.

Lemma azimuth_count_well_formed (envelopes : list PointCloudReading) :
  Forall well_formed envelopes ->
  (32 * list_sum (map azimuth_count envelopes)
   = length (concat (map distances envelopes)))%nat.
Proof.
  induction 1 as [| msg rest Hmsg _ IH]; [reflexivity |].
  cbn [map concat]. rewrite length_app, <- IH.
  replace (list_sum (azimuth_count msg :: map azimuth_count rest))
    with (azimuth_count msg + list_sum (map azimuth_count rest))%nat by reflexivity.
  assert (Hm : (32 * azimuth_count msg = length (distances msg))%nat).
  { unfold azimuth_count. destruct Hmsg as [-> | [He Hmod]]; [reflexivity |].
    destruct (distances msg) as [| b bs] eqn:Hd; [reflexivity |]. cbn [is_empty].
    rewrite He, python_int_quotient.
    change (Z.pos (2 * 16)) with (Z.of_nat 32).
    rewrite <- Nat2Z.inj_div, Nat2Z.id.
    pose proof (Nat.div_mod_eq (length (b :: bs)) 32). lia. }
  lia.
Qed.

(** X9. A revolution of well-formed slices (no samples, or 16 entries per
    azimuth and whole columns of 32 bytes) is always decoded: nothing is
    raised, one azimuth is generated per column, and there is one candidate
    point per sample; the cloud is what the range filter leaves of them. *)
Theorem well_formed_revolution_decodes (envelopes : list PointCloudReading) :
  Forall well_formed envelopes ->
  exists azs candidates,
    accumulate envelopes [] [] = Ok (azs, concat (map distances envelopes)) /\
    (32 * length azs = length (concat (map distances envelopes)))%nat /\
    candidate_points (np_deg2rad azs) (np_deg2rad VERTICAL_ANGLES_16)
                     (concat (map distances envelopes)) = Ok candidates /\
    (2 * length candidates = length (concat (map distances envelopes)))%nat /\
    extract_points envelopes = Ok (filter (fun p => usable (norm p)) candidates).
Proof.
  intros Hwf.
  destruct (accumulate_well_formed envelopes [] [] Hwf) as [azs Hacc].
  cbn [app] in Hacc.
  set (bin := concat (map distances envelopes)) in *.
  assert (Hazs : (32 * length azs = length bin)%nat).
  { rewrite (accumulate_azimuths _ _ _ _ _ Hacc). cbn [length].
    apply (azimuth_count_well_formed envelopes Hwf). }
  assert (Heven : Nat.even (length bin) = true)
    by (apply Nat.even_spec; exists (16 * length azs)%nat; lia).
  set (ds := map (fun u => IZR u / 100) (be_u2 bin)).
  assert (Hds : length ds = (16 * length azs)%nat)
    by (unfold ds; rewrite length_map; apply length_be_u2; lia).
  assert (Hdec : decode_distances bin = Ok ds)
    by (unfold decode_distances, np_frombuffer_u2; rewrite Heven; reflexivity).
  pose proof (cartesian_points_outcome (np_deg2rad azs) (np_deg2rad VERTICAL_ANGLES_16) ds)
    as Hout.
  cbv zeta in Hout.
  assert (La : length (np_deg2rad azs) = length azs) by apply length_map.
  assert (Le : length (np_deg2rad VERTICAL_ANGLES_16) = 16%nat) by reflexivity.
  rewrite La, Le in Hout.
  destruct (cartesian_points _ _ ds) as [cands | e] eqn:Hcart; [| lia].
  destruct Hout as [_ Hsize].
  assert (Hcand : candidate_points (np_deg2rad azs) (np_deg2rad VERTICAL_ANGLES_16) bin
                  = Ok cands)
    by (unfold candidate_points; rewrite Hdec; exact Hcart).
  exists azs, cands.
  split; [exact Hacc |]. split; [exact Hazs |]. split; [exact Hcand |].
  split.
  - rewrite Hsize. destruct (Nat.eqb_spec (length ds) 1); lia.
  - unfold extract_points. rewrite Hacc. cbn [bind].
    rewrite get_points_filter, Hcand. reflexivity.
Qed.

Lemma well_formed_revolution_decodes_witness :
  exists azs candidates,
    accumulate [slice_10_20_16; slice_empty] [] []
    = Ok (azs, concat (map distances [slice_10_20_16; slice_empty])) /\
    (32 * length azs
     = length (concat (map distances [slice_10_20_16; slice_empty])))%nat /\
    candidate_points (np_deg2rad azs) (np_deg2rad VERTICAL_ANGLES_16)
                     (concat (map distances [slice_10_20_16; slice_empty]))
    = Ok candidates /\
    (2 * length candidates
     = length (concat (map distances [slice_10_20_16; slice_empty])))%nat /\
    extract_points [slice_10_20_16; slice_empty]
    = Ok (filter (fun p => usable (norm p)) candidates).
Proof.
  apply (well_formed_revolution_decodes [slice_10_20_16; slice_empty]).
  apply Forall_cons; [right; split; reflexivity |].
  apply Forall_cons; [left; reflexivity | apply Forall_nil].
Defined.

End Azimuths.

(** ** What a decoded cloud contains *)

Section Clouds.
Local Open Scope R_scope.

Lemma extractor_candidates (envelopes : list PointCloudReading) (points : list point) :
  point_cloud_reading_extractor envelopes = Some points ->
  exists azs candidates,
    accumulate envelopes [] [] = Ok (azs, concat (map distances envelopes)) /\
    Nat.even (length (concat (map distances envelopes))) = true /\
    cartesian_points (np_deg2rad azs) (np_deg2rad VERTICAL_ANGLES_16)
      (map (fun u => IZR u / 100) (be_u2 (concat (map distances envelopes))))
    = Ok candidates /\
    points = filter (fun p => usable (norm p)) candidates /\
    points <> [].
Proof.
  intros H. apply extractor_get_points in H.
  destruct H as [Hne [azs [bin [Hacc Hget]]]].
  pose proof (accumulate_bytes _ _ _ _ _ Hacc) as Hbin. cbn [app] in Hbin. subst bin.
  rewrite get_points_filter in Hget. unfold candidate_points, decode_distances,
    np_frombuffer_u2 in Hget.
  destruct (Nat.even (length (concat (map distances envelopes)))) eqn:Heven;
    cbn [bind] in Hget; [| discriminate].
  destruct (cartesian_points _ _ _) as [cands | e] eqn:Hcart; cbn [bind] in Hget;
    [| discriminate].
  injection Hget as <-.
  exists azs, cands. repeat split; try assumption; reflexivity.
Qed.

Lemma in_np_deg2rad (x : R) (l : list R) :
  In x (np_deg2rad l) -> exists deg, deg * (PI / 180) = x /\ In deg l.
Proof. unfold np_deg2rad. intros H. apply in_map_iff in H. exact H. Qed.

(** The form of a point of a decoded cloud. *)
Lemma cloud_point_form (envelopes : list PointCloudReading)
    (points : list point) (p : point) :
  point_cloud_reading_extractor envelopes = Some points -> In p points ->
  exists (u : Z) (azimuth elevation : R) (azs : list R) (bin : list byte),
    accumulate envelopes [] [] = Ok (azs, bin) /\
    In u (be_u2 bin) /\ (0 <= u)%Z /\
    In azimuth azs /\ In elevation VERTICAL_ANGLES_16 /\
    usable (norm p) = true /\
    p = (IZR u / 100 * cos (elevation * (PI / 180)) * cos (azimuth * (PI / 180)),
         - (IZR u / 100 * cos (elevation * (PI / 180)) * sin (azimuth * (PI / 180))),
         IZR u / 100 * sin (elevation * (PI / 180))).
Proof.
  intros Hex Hp.
  destruct (extractor_candidates _ _ Hex) as [azs [cands [Hacc [_ [Hcart [-> _]]]]]].
  apply filter_In in Hp. destruct Hp as [Hp Husable].
  apply In_nth_error in Hp. destruct Hp as [k Hk].
  destruct (cartesian_points_nth _ _ _ _ _ _ Hcart Hk) as [Hkd [Hkg Heq]].
  cbv zeta in Heq.
  set (raw := be_u2 (concat (map distances envelopes))) in *.
  rewrite (length_map (fun u => IZR u / 100) raw) in Hkd, Heq.
  rewrite (nth_map_in (fun u => IZR u / 100) raw _ 0 0%Z Hkd) in Heq.
  set (u := nth (bidx (length raw) k) raw 0%Z) in *.
  assert (Hu : In u raw) by (apply nth_In; exact Hkd).
  assert (Hel : In (nth (bidx (length (np_deg2rad azs)
                                * length (np_deg2rad VERTICAL_ANGLES_16)) k)
                        (flatten (fst (np_meshgrid (np_deg2rad VERTICAL_ANGLES_16)
                                                   (np_deg2rad azs)))) 0)
                   (np_deg2rad VERTICAL_ANGLES_16)).
  { apply (in_flatten_els _ (np_deg2rad azs)). apply nth_In.
    rewrite length_flatten_els. exact Hkg. }
  assert (Haz : In (nth (bidx (length (np_deg2rad azs)
                                * length (np_deg2rad VERTICAL_ANGLES_16)) k)
                        (flatten (snd (np_meshgrid (np_deg2rad VERTICAL_ANGLES_16)
                                                   (np_deg2rad azs)))) 0)
                   (np_deg2rad azs)).
  { apply (in_flatten_azs (np_deg2rad VERTICAL_ANGLES_16)). apply nth_In.
    rewrite length_flatten_azs. exact Hkg. }
  apply in_np_deg2rad in Hel. destruct Hel as [elevation [Hel_eq Hel]].
  apply in_np_deg2rad in Haz. destruct Haz as [azimuth [Haz_eq Haz]].
  rewrite <- Hel_eq, <- Haz_eq in Heq.
  exists u, azimuth, elevation, azs, (concat (map distances envelopes)).
  split; [exact Hacc |]. split; [exact Hu |].
  split.
  - pose proof (be_u2_nonneg (concat (map distances envelopes))) as Hall.
    rewrite Forall_forall in Hall. apply Hall. exact Hu.
  - split; [exact Haz |]. split; [exact Hel |]. split; [exact Husable | exact Heq].
Qed.

(** X4. Every point of a cloud that leaves the decoder is built from a
    sample of the revolution that lies between 50 and 20000, from one of
    the 16 angles of [VERTICAL_ANGLES_16] and from one of the azimuths
    generated for the slices, angles converted to radians; its distance
    from the origin is the sample divided by 100. *)
Theorem cloud_point_provenance (envelopes : list PointCloudReading)
    (points : list point) (p : point) :
  point_cloud_reading_extractor envelopes = Some points -> In p points ->
  exists (u : Z) (azimuth elevation : R) (azs : list R) (bin : list byte),
    accumulate envelopes [] [] = Ok (azs, bin) /\
    In u (be_u2 bin) /\ (50 <= u <= 20000)%Z /\
    In azimuth azs /\ In elevation VERTICAL_ANGLES_16 /\
    let d := IZR u / 100 in
    let az := azimuth * (PI / 180) in
    let el := elevation * (PI / 180) in
    p = (d * cos el * cos az, - (d * cos el * sin az), d * sin el) /\
    norm p = d.
Proof.
  intros Hex Hp.
  destruct (cloud_point_form _ _ _ Hex Hp)
    as [u [azimuth [elevation [azs [bin [Hacc [Hu [Hpos [Haz [Hel [Hus Heq]]]]]]]]]]].
  exists u, azimuth, elevation, azs, bin.
  split; [exact Hacc |]. split; [exact Hu |].
  assert (Hnorm : norm p = Rabs (IZR u / 100))
    by (rewrite Heq; apply norm_spherical).
  split.
  - rewrite Hnorm, (usable_sample u Hpos) in Hus.
    apply andb_true_iff in Hus. rewrite !Z.leb_le in Hus. exact Hus.
  - split; [exact Haz |]. split; [exact Hel |]. cbv zeta.
    split; [exact Heq |]. rewrite Hnorm. apply Rabs_pos_eq.
    apply Rmult_le_pos; [apply IZR_le; exact Hpos | lra].
Qed.

Lemma cloud_point_provenance_witness :
  exists (u : Z) (azimuth elevation : R) (azs : list R) (bin : list byte),
    accumulate [slice_0_0_16] [] [] = Ok (azs, bin) /\
    In u (be_u2 bin) /\ (50 <= u <= 20000)%Z /\
    In azimuth azs /\ In elevation VERTICAL_ANGLES_16 /\
    let d := IZR u / 100 in
    let az := azimuth * (PI / 180) in
    let el := elevation * (PI / 180) in
    (10 * cos (-15 * (PI / 180)) * cos (0 * (PI / 180)),
     - (10 * cos (-15 * (PI / 180)) * sin (0 * (PI / 180))),
     10 * sin (-15 * (PI / 180)))
    = (d * cos el * cos az, - (d * cos el * sin az), d * sin el) /\
    norm (10 * cos (-15 * (PI / 180)) * cos (0 * (PI / 180)),
          - (10 * cos (-15 * (PI / 180)) * sin (0 * (PI / 180))),
          10 * sin (-15 * (PI / 180))) = d.
Proof.
  apply (cloud_point_provenance [slice_0_0_16] beam_fan).
  - exact extractor_slice_0_0_16.
  - left. reflexivity.
Defined.

(** X10. A cloud that leaves the decoder is never empty and has at most
    16 points for each azimuth generated for the slices of the revolution. *)
Theorem cloud_size (envelopes : list PointCloudReading) (points : list point) :
  point_cloud_reading_extractor envelopes = Some points ->
  (1 <= length points <= 16 * list_sum (map azimuth_count envelopes))%nat.
Proof.
  intros Hex.
  destruct (extractor_candidates _ _ Hex) as [azs [cands [Hacc [_ [Hcart [-> Hne]]]]]].
  pose proof (accumulate_azimuths _ _ _ _ _ Hacc) as Hcount. cbn [length] in Hcount.
  pose proof (cartesian_points_outcome (np_deg2rad azs) (np_deg2rad VERTICAL_ANGLES_16)
                (map (fun u => IZR u / 100) (be_u2 (concat (map distances envelopes)))))
    as Hout.
  cbv zeta in Hout.
  rewrite Hcart in Hout. destruct Hout as [Hshape Hsize].
  assert (La : length (np_deg2rad azs) = length azs) by apply length_map.
  assert (Le : length (np_deg2rad VERTICAL_ANGLES_16) = 16%nat) by reflexivity.
  rewrite La, Le in Hshape, Hsize.
  pose proof (length_filter_le (fun p => usable (norm p)) cands) as Hle.
  split.
  - destruct (filter (fun p => usable (norm p)) cands); [congruence | simpl; lia].
  - simpl Nat.add in Hcount. rewrite <- Hcount. revert Hsize.
    destruct (Nat.eqb_spec
                (length (map (fun u => IZR u / 100)
                             (be_u2 (concat (map distances envelopes))))) 1);
      intros Hsize; lia.
Qed.

Lemma cloud_size_witness :
  (1 <= length beam_fan <= 16 * list_sum (map azimuth_count [slice_0_0_16]))%nat.
Proof.
  apply (cloud_size [slice_0_0_16] beam_fan). exact extractor_slice_0_0_16.
Defined.

End Clouds.

(** ** The decoder stage: revolutions in, clouds out *)

Section DecoderStage.

Lemma decoder_run_short (n : nat) (tail buffer : list PointCloudReading) :
  (length buffer + length tail < n)%nat -> decoder_run n buffer tail = [].
Proof.
  revert buffer. induction tail as [| x tail IH]; intros buffer Hlen; [reflexivity |].
  cbn [decoder_run]. unfold decoder_update, partition_update.
  rewrite length_app. cbn [length] in *.
  replace (Nat.eqb (length buffer + 1) n) with false
    by (symmetry; apply Nat.eqb_neq; lia).
  apply IH. rewrite length_app. cbn [length]. lia.
Qed.

(** X11. The stage [partition(n).map(extractor).filter(not None)] cuts the
    stream of envelopes into revolutions of [n] and emits, in order, the
    cloud of each revolution that has one; envelopes of a revolution that
    is not complete yet cause no emission. *)
Theorem decoder_stage_by_revolution (n : nat)
    (revolutions : list (list PointCloudReading)) (tail : list PointCloudReading) :
  (0 < n)%nat -> Forall (fun r => length r = n) revolutions -> (length tail < n)%nat ->
  decoder_run n [] (concat revolutions ++ tail) = flat_map emitted revolutions.
Proof.
  intros Hn Hrevs Htail.
  induction Hrevs as [| r revs Hr _ IH]; cbn [concat flat_map app].
  - apply decoder_run_short. simpl. exact Htail.
  - rewrite <- app_assoc, (decoder_run_revolution n r _ Hn Hr), IH. reflexivity.
Qed.

Lemma decoder_stage_by_revolution_witness :
  decoder_run CLUON_ENVELOPES_PER_REVOLUTION []
    (concat [[slice_3_bytes; slice_empty]; [slice_0_0_16; slice_empty]] ++ [slice_half])
  = flat_map emitted [[slice_3_bytes; slice_empty]; [slice_0_0_16; slice_empty]].
Proof.
  apply (decoder_stage_by_revolution 2
           [[slice_3_bytes; slice_empty]; [slice_0_0_16; slice_empty]] [slice_half]).
  - lia.
  - repeat constructor.
  - simpl. lia.
Defined.

(** X12. The stage emits at most one cloud for every [n] envelopes it
    has received, and with [n = 0] it never emits anything. *)
Theorem decoder_stage_rate (n : nat) (envelopes : list PointCloudReading) :
  (n * length (decoder_run n [] envelopes) <= length envelopes)%nat /\
  decoder_run 0 [] envelopes = [].
Proof.
  assert (Hzero : forall envs buffer, decoder_run 0 buffer envs = []).
  { induction envs as [| x envs IH]; intros buffer; [reflexivity |].
    cbn [decoder_run]. unfold decoder_update, partition_update.
    rewrite length_app. cbn [length].
    replace (Nat.eqb (length buffer + 1) 0) with false
      by (symmetry; apply Nat.eqb_neq; lia).
    apply IH. }
  split; [| apply Hzero].
  destruct n as [| n]; [simpl; lia |].
  assert (H : forall envs buffer, (length buffer < S n)%nat ->
              (S n * length (decoder_run (S n) buffer envs)
               <= length buffer + length envs)%nat).
  { induction envs as [| x envs IH]; intros buffer Hb; [simpl; lia |].
    cbn [decoder_run]. unfold decoder_update, partition_update.
    rewrite length_app. cbn [length].
    destruct (Nat.eqb_spec (length buffer + 1) (S n)) as [E | E].
    - specialize (IH [] ltac:(simpl; lia)). cbn [length] in IH.
      destruct (point_cloud_reading_extractor (buffer ++ [x])); cbn [length]; lia.
    - specialize (IH (buffer ++ [x]) ltac:(rewrite length_app; simpl; lia)).
      rewrite length_app in IH. cbn [length] in IH. lia. }
  apply (H envelopes []). simpl. lia.
Qed.

End DecoderStage.

(** ** The limiter: what it forwards *)

Section LimiterForwarding.
Context {A : Type}.
Local Open Scope Q_scope.

Lemma limiter_run_served (interval : Q) (arrivals : list (Q * A)) (st : limiter) :
  served arrivals (snd (limiter_run interval st arrivals)).
Proof.
  revert st. induction arrivals as [| [now x] rest IH]; intros st; [constructor |].
  cbn [limiter_run]. unfold limiter_update.
  destruct (Qle_bool (cb_resumes st) now).
  - pose proof (rate_limit_update_spec interval (rate_next st) now) as Hspec.
    destruct (rate_limit_update interval (rate_next st) now) as [next' e].
    destruct Hspec as [He _].
    set (st' := {| latest_next := [x]; cb_resumes := e; rate_next := next' |}).
    specialize (IH st').
    destruct (limiter_run interval st' rest) as [st'' outs].
    cbn [snd map app] in *. apply served_emit; [| exact IH].
    rewrite He. apply Q.le_max_l.
  - set (st' := {| latest_next := [x]; cb_resumes := cb_resumes st;
                   rate_next := rate_next st |}).
    specialize (IH st').
    destruct (limiter_run interval st' rest) as [st'' outs].
    cbn [snd app] in *. apply served_drop. exact IH.
Qed.

(** X13. The limiter invents nothing and reorders nothing: what it emits
    are frames that arrived, each at or after the instant of its arrival,
    in the order of their arrival. *)
Theorem limiter_forwards_arrivals (arrivals : list (Q * A)) :
  served arrivals (pcd_limiter_run arrivals).
Proof.
  unfold pcd_limiter_run. apply limiter_run_served.
Qed.

Lemma limiter_run_transparent (interval : Q) (arrivals : list (Q * A))
    (st : limiter) (from : Q) :
  0 <= interval -> cb_resumes st <= from -> rate_next st <= from ->
  spaced_from interval from (map fst arrivals) ->
  snd (limiter_run interval st arrivals) = arrivals.
Proof.
  intros Hi. revert st from.
  induction arrivals as [| [now x] rest IH]; intros st from Hcb Hnext Hsp;
    [reflexivity |].
  cbn [map fst spaced_from] in Hsp. destruct Hsp as [Hfrom Hrest].
  cbn [limiter_run]. unfold limiter_update.
  replace (Qle_bool (cb_resumes st) now) with true
    by (symmetry; apply Qle_bool_iff; lra).
  unfold rate_limit_update.
  replace (Qltb now (rate_next st)) with false
    by (symmetry; apply Qltb_false; lra).
  set (st' := {| latest_next := [x]; cb_resumes := now;
                 rate_next := Qmax now (rate_next st) + interval |}).
  assert (Hmax : Qmax now (rate_next st) == now) by (apply Q.max_l; lra).
  specialize (IH st' (now + interval)).
  destruct (limiter_run interval st' rest) as [st'' outs].
  cbn [snd map app] in *. f_equal. unfold st' in IH. cbn [cb_resumes rate_next] in IH.
  apply IH.
  - lra.
  - rewrite Hmax. lra.
  - exact Hrest.
Qed.

(** X14. Frames that arrive at least 0.5 seconds apart all pass the
    limiter, each at the instant of its arrival. *)
Theorem limiter_transparent_when_slow (arrivals : list (Q * A)) :
  spaced_from RATE_LIMIT_INTERVAL 0 (map fst arrivals) ->
  pcd_limiter_run arrivals = arrivals.
Proof.
  intros Hsp. unfold pcd_limiter_run.
  apply (limiter_run_transparent RATE_LIMIT_INTERVAL arrivals limiter_init 0).
  - discriminate.
  - apply Qle_refl.
  - apply Qle_refl.
  - exact Hsp.
Qed.

Lemma limiter_run_ignores_slot (interval : Q) (arrivals : list (Q * A))
    (st st' : limiter) :
  cb_resumes st = cb_resumes st' -> rate_next st = rate_next st' ->
  snd (limiter_run interval st arrivals) = snd (limiter_run interval st' arrivals).
Proof.
  intros Hcb Hnext. destruct arrivals as [| [now x] rest]; [reflexivity |].
  cbn [limiter_run]. unfold limiter_update. rewrite <- Hcb, <- Hnext. reflexivity.
Qed.

(** X15. A frame that arrives while the limiter is holding another one
    back is lost: it is not emitted then, and not later either, whatever
    arrives after it. *)
Theorem limiter_drops_frames_while_holding (interval : Q) (st : limiter)
    (now : Q) (x : A) (rest : list (Q * A)) :
  now < cb_resumes st ->
  snd (limiter_run interval st ((now, x) :: rest))
  = snd (limiter_run interval st rest).
Proof.
  intros Hbusy. cbn [limiter_run]. unfold limiter_update.
  replace (Qle_bool (cb_resumes st) now) with false
    by (symmetry; apply not_true_iff_false; rewrite Qle_bool_iff;
        apply Qlt_not_le; exact Hbusy).
  pose proof (limiter_run_ignores_slot interval rest
                {| latest_next := [x]; cb_resumes := cb_resumes st;
                   rate_next := rate_next st |} st eq_refl eq_refl) as H.
  destruct (limiter_run interval _ rest) as [st1 outs1].
  cbn [snd app] in *. exact H.
Qed.

End LimiterForwarding.

Section LimiterForwardingExamples.
Local Open Scope Q_scope.

Lemma limiter_transparent_when_slow_witness :
  pcd_limiter_run half_second_frames = half_second_frames.
Proof.
  apply (limiter_transparent_when_slow half_second_frames).
  cbn. repeat split; discriminate.
Defined.

Lemma limiter_drops_frames_while_holding_witness :
  snd (limiter_run RATE_LIMIT_INTERVAL limiter_holding ((0.2, 3%nat) :: [(2, 4%nat)]))
  = snd (limiter_run RATE_LIMIT_INTERVAL limiter_holding [(2, 4%nat)]).
Proof.
  apply (limiter_drops_frames_while_holding RATE_LIMIT_INTERVAL limiter_holding
           0.2 3%nat [(2, 4%nat)]).
  reflexivity.
Defined.

End LimiterForwardingExamples.

(** ** The frame transformer: what a rotation keeps *)

Section Rotations.
Local Open Scope R_scope.


End Rotations.
